(** * LSB image steganography: the merge / unmerge transform

    A shallow embedding of [src/utils/steganography_util.cc]: the format
    sniffer [GetImageType], the pixel transforms [MergePixels] and
    [UnmergePixels], the extension test [HasJpegExtension] and the two
    entry points [Merge] and [Unmerge].

    The JPEG/PNG codec (Boost.GIL) is an external collaborator: it is a
    record of two functions the entry points are parameterised by.  The file
    system is a finite map from paths to files. *)

From Stdlib Require Import ZArith Lia Bool.
From stdpp Require Import gmap strings list.

(** ** Machine integers *)

(** [uint8_t] is a byte.  C++ promotes it to [int] before any arithmetic
    ([to_int]) and narrows the [int] result back on assignment ([of_int],
    reduction modulo 256). *)
Module U8.

Definition uint8_t : Type := Byte.byte.

Definition to_int (c : uint8_t) : Z := Z.of_N (Byte.to_N c).

Definition of_int (z : Z) : uint8_t :=
  default Byte.x00 (Byte.of_N (Z.to_N (z mod 256))).

End U8.

(** Decidable [>=] and [>] on naturals, so that comparisons read as in the
    source. *)
#[global] Instance nat_ge_dec : RelDecision ge := fun x y => decide (y <= x).
#[global] Instance nat_gt_dec : RelDecision gt := fun x y => decide (y < x).

(** [uint64_t] arithmetic wraps modulo 2^64. *)
Definition to_uint64 (z : Z) : Z := z mod 2 ^ 64.

(** A counted loop [for (int i = 0; i < n; ++i) body], threading the state
    the body mutates.  [body 0] runs first, [body (n-1)] last. *)
Fixpoint for_loop {St : Type} (n : nat) (body : nat -> St -> St) (s : St) : St :=
  match n with
  | O => s
  | S k => body k (for_loop k body s)
  end.

Module steganography.

Import U8.

(** ** Pixels and images (boost::gil::rgb8_pixel_t, rgb8_image_t) *)

Record rgb8_pixel_t : Type := Pixel {
  red : uint8_t;
  green : uint8_t;
  blue : uint8_t
}.

(** [pix[i]]: channel access by index.  The loops of the program only use
    the indices 0, 1 and 2. *)
Definition chan (p : rgb8_pixel_t) (i : nat) : uint8_t :=
  match i with
  | 0%nat => red p
  | 1%nat => green p
  | _ => blue p
  end.

(** [pix[i] = v]. *)
Definition set_chan (p : rgb8_pixel_t) (i : nat) (v : uint8_t) : rgb8_pixel_t :=
  match i with
  | 0%nat => Pixel v (green p) (blue p)
  | 1%nat => Pixel (red p) v (blue p)
  | _ => Pixel (red p) (green p) v
  end.

Definition kHighNibble : Z := 0xF0.
Definition kLowNibble : Z := 0x0F.

(** The right-hand side of the assignment in the loop of [MergePixels],
    with the narrowing to the 8-bit channel the assignment performs. *)
Definition merge_channel (cover secret : uint8_t) : uint8_t :=
  of_int (Z.lor (Z.land (to_int cover) kHighNibble)
                (Z.shiftr (Z.land (to_int secret) kHighNibble) 4)).

(** The right-hand side of the assignment in the loop of [UnmergePixels]. *)
Definition unmerge_channel (merged : uint8_t) : uint8_t :=
  of_int (Z.shiftl (Z.land (to_int merged) kLowNibble) 4).

Definition MergePixels (cover_pix secret_pix : rgb8_pixel_t) : rgb8_pixel_t :=
  for_loop 3
    (fun i merged_pix =>
       set_chan merged_pix i (merge_channel (chan cover_pix i) (chan secret_pix i)))
    (Pixel Byte.x00 Byte.x00 Byte.x00).

Definition UnmergePixels (pixel : rgb8_pixel_t) : rgb8_pixel_t :=
  for_loop 3
    (fun i unmerged_pix => set_chan unmerged_pix i (unmerge_channel (chan pixel i)))
    (Pixel Byte.x00 Byte.x00 Byte.x00).

Definition kBlackPixel : rgb8_pixel_t := Pixel Byte.x00 Byte.x00 Byte.x00.

(** An image owns a contiguous row-major pixel buffer.  [view_at img col row]
    is [view(col, row)] read, [view_set] is the assignment to it.  Outside
    the buffer the C++ behaviour is undefined; the model reads black and
    writes nothing there, and the loops below never leave the buffer.
    GIL's dimensions are [std::ptrdiff_t] and the loop counters [int]; PNG
    and JPEG bound both dimensions by 2^31 - 1, so the counters never
    overflow and naturals model them exactly. *)
Record rgb8_image_t : Type := Image {
  width : nat;
  height : nat;
  pixels : list rgb8_pixel_t
}.

Definition view_at (img : rgb8_image_t) (col row : nat) : rgb8_pixel_t :=
  default kBlackPixel (pixels img !! (row * width img + col)%nat).

Definition view_set (img : rgb8_image_t) (col row : nat) (p : rgb8_pixel_t)
  : rgb8_image_t :=
  Image (width img) (height img) (<[(row * width img + col)%nat := p]> (pixels img)).

(** ** Files *)

Record file : Type := File {
  readable : bool;
  contents : list Byte.byte
}.

Abbreviation filesystem := (gmap string file).

(** [std::filesystem::exists], for a path whose status the system can
    determine: [true] for a path that names a file, [false] for one that
    names nothing.  For other paths (a name that is too long, a directory
    that may not be searched) the call throws; that case is not modelled,
    and the statements on [kFileNotFound] below are conditional on the
    return. *)
Definition exists_ (fs : filesystem) (path : string) : bool :=
  bool_decide (is_Some (fs !! path)).

(** [std::ifstream ifs(filename, binary)]: [None] when [is_open()] is false,
    otherwise the bytes of the stream. *)
Definition ifstream_open (fs : filesystem) (filename : string)
  : option (list Byte.byte) :=
  match fs !! filename with
  | Some f => if readable f then Some (contents f) else None
  | None => None
  end.

(** [ifs.read(&buffer[0], buffer.size())]: the characters extracted replace the
    front of the buffer; at end of file the rest of the buffer keeps what
    it held. *)
Definition ifstream_read (ifs buffer : list Byte.byte) : list Byte.byte :=
  take (length buffer) ifs ++ drop (length ifs) buffer.

(** ** Format sniffer *)

Inductive ImageType : Type := kJpeg | kPng | kUnknown.

#[global] Instance ImageType_eq_dec : EqDecision ImageType.
Proof. solve_decision. Defined.

Definition kHeaderSize : nat := 8.
Definition kByteShift : Z := 8.
Definition kPngSignature : Z := 0x89504E470D0A1A0A.
Definition kJpegSignature : Z := 0xFFD8000000000000.

(** The loop that packs the buffer into an unsigned 64-bit word. *)
Definition header_word (buffer : list Byte.byte) : Z :=
  fold_left
    (fun word c => Z.lor (to_uint64 (Z.shiftl word kByteShift)) (to_int c))
    buffer 0%Z.

(** The signature tests at the end of [GetImageType]. *)
Definition signature_type (word : Z) : ImageType :=
  if (word =? kPngSignature)%Z then kPng
  else if (Z.land word kJpegSignature =? kJpegSignature)%Z then kJpeg
  else kUnknown.

Definition GetImageType (fs : filesystem) (filename : string) : ImageType :=
  match ifstream_open fs filename with
  | None => kUnknown
  | Some ifs =>
      let buffer := ifstream_read ifs (replicate kHeaderSize Byte.x00) in
      signature_type (header_word buffer)
  end.

(** ** Codec adapter *)

(** Boost.GIL's readers and writers are outside the program.  A reader maps
    the bytes of a file to an image or throws ([None]); a writer produces the
    bytes of the encoded image or throws. *)
Inductive format_tag : Type := jpeg_tag | png_tag.

Record gil_io : Type := GilIO {
  read_and_convert_image : format_tag -> list Byte.byte -> option rgb8_image_t;
  write_view : format_tag -> rgb8_image_t -> option (list Byte.byte)
}.

Definition ReadImage (io : gil_io) (fs : filesystem) (filename : string)
    (type : ImageType) : option rgb8_image_t :=
  if bool_decide (type = kJpeg) then
    ifstream_open fs filename ≫= read_and_convert_image io jpeg_tag
  else
    ifstream_open fs filename ≫= read_and_convert_image io png_tag.

(** The file is stored under the path as it is written: two spellings of
    one file ([cover.png] and [./cover.png]) are two keys of the map, and
    the file written is a readable one. *)
Definition WriteImage (io : gil_io) (fs : filesystem) (image : rgb8_image_t)
    (filename : string) (type : ImageType) : option filesystem :=
  if bool_decide (type = kJpeg) then
    bytes ← write_view io jpeg_tag image; Some (<[filename := File true bytes]> fs)
  else
    bytes ← write_view io png_tag image; Some (<[filename := File true bytes]> fs).

(** ** Output extension *)

(** [std::string::ends_with]. *)
Definition ends_with (s sv : string) : bool :=
  bool_decide (String.length s >= String.length sv)%nat &&
  String.eqb
    (String.substring (String.length s - String.length sv) (String.length sv) s)
    sv.

Definition kExtensions : list string :=
  [".jpg"; ".jpeg"; ".JPG"; ".JPEG"]%string.

Definition HasJpegExtension (filename : string) : bool :=
  existsb (fun s => ends_with filename s) kExtensions.

(** ** Merge and Unmerge *)

Inductive RetCode : Type :=
  | kSuccess
  | kInvalidFileFormat
  | kFileNotFound
  | kInvalidDimensions.

(** A call either returns a code, leaving the file system in some state, or
    is aborted by an exception of the codec. *)
Inductive outcome : Type :=
  | Returned (rc : RetCode) (fs : filesystem)
  | Thrown.

Notation "'try' x ← e ; k" :=
  (match e with Some x => k | None => Thrown end)
  (at level 10, x name, e at level 100, k at level 200, only parsing).

(** The two nested loops of [Merge] over the output view.  The bounds
    [output_view.height()] and [output_view.width()] are those of the image
    the view was taken from: assigning pixels does not change them. *)
Definition merge_loop (secret_img output_img : rgb8_image_t) : rgb8_image_t :=
  for_loop (height output_img)
    (fun row output_view =>
       for_loop (width output_img)
         (fun col output_view =>
            if bool_decide (row >= height secret_img)%nat
               || bool_decide (col >= width secret_img)%nat
            then
              view_set output_view col row
                (MergePixels (view_at output_view col row) kBlackPixel)
            else
              view_set output_view col row
                (MergePixels (view_at output_view col row)
                             (view_at secret_img col row)))
         output_view)
    output_img.

Definition Merge (io : gil_io) (fs : filesystem) (cover secret outfile : string)
  : outcome :=
  if negb (exists_ fs cover) || negb (exists_ fs secret) then
    Returned kFileNotFound fs
  else
    let cover_img_t := GetImageType fs cover in
    let secret_img_t := GetImageType fs secret in
    if bool_decide (cover_img_t = kUnknown) || bool_decide (secret_img_t = kUnknown)
    then Returned kInvalidFileFormat fs
    else
      try cover_img ← ReadImage io fs cover cover_img_t;
      try secret_img ← ReadImage io fs secret secret_img_t;
      let output_img := cover_img in
      if bool_decide (height secret_img > height cover_img)%nat
         || bool_decide (width secret_img > width cover_img)%nat
      then Returned kInvalidDimensions fs
      else
        let output_img := merge_loop secret_img output_img in
        try fs' ← WriteImage io fs output_img outfile kPng;
        Returned kSuccess fs'.

(** The two nested loops of [Unmerge]. *)
Definition unmerge_loop (secret_img output_img : rgb8_image_t) : rgb8_image_t :=
  for_loop (height output_img)
    (fun row output_view =>
       for_loop (width output_img)
         (fun col output_view =>
            view_set output_view col row (UnmergePixels (view_at secret_img col row)))
         output_view)
    output_img.

Definition Unmerge (io : gil_io) (fs : filesystem) (secret outfile : string)
  : outcome :=
  if negb (exists_ fs secret) then Returned kFileNotFound fs
  else
    let secret_img_t := GetImageType fs secret in
    if bool_decide (secret_img_t = kUnknown) then Returned kInvalidFileFormat fs
    else
      try secret_img ← ReadImage io fs secret secret_img_t;
      let output_img := secret_img in
      let output_img := unmerge_loop secret_img output_img in
      if HasJpegExtension outfile then
        try fs' ← WriteImage io fs output_img outfile kJpeg;
        Returned kSuccess fs'
      else
        try fs' ← WriteImage io fs output_img outfile kPng;
        Returned kSuccess fs'.

End steganography.

Import U8 steganography.

(** ** Vocabulary of the statements *)

(** A grid whose buffer holds exactly [width * height] pixels. *)
Definition wf_image (img : rgb8_image_t) : Prop :=
  length (pixels img) = (width img * height img)%nat.

(** The readers of the codec only produce well-formed grids. *)
Definition decodes_grids (io : gil_io) : Prop :=
  forall tag bs img, read_and_convert_image io tag bs = Some img -> wf_image img.

(** [s] ends with [sv]. *)
Definition has_suffix (s sv : string) : Prop :=
  exists stem : string, s = (stem +:+ sv)%string.

(** The path ends with one of the four JPEG extensions, case-sensitively. *)
Definition jpeg_suffix (path : string) : Prop :=
  has_suffix path ".jpg" \/ has_suffix path ".jpeg"
  \/ has_suffix path ".JPG" \/ has_suffix path ".JPEG".

(** The shape shared by the loops of [Merge] and [Unmerge]: every pixel of
    the grid is visited once, in row-major order, and replaced by a function
    of its coordinates and of its current value. *)
Definition sweep (f : nat -> nat -> rgb8_pixel_t -> rgb8_pixel_t) img : rgb8_image_t :=
  for_loop (height img)
    (fun row o =>
       for_loop (width img)
         (fun col o => view_set o col row (f col row (view_at o col row))) o)
    img.

(** State of the sweep when [row] full rows and [col] pixels of the next row
    are done. *)
Definition swept (f : nat -> nat -> rgb8_pixel_t -> rgb8_pixel_t) img
    (row col : nat) out : Prop :=
  width out = width img /\ height out = height img /\ wf_image out
  /\ forall c r, c < width img -> r < height img ->
       view_at out c r =
       if bool_decide (r < row \/ (r = row /\ c < col))
       then f c r (view_at img c r) else view_at img c r.

(** What the body of the loops of [Merge] stores at [(col, row)]. *)
Definition merged_pixel (secret_img : rgb8_image_t) col row p : rgb8_pixel_t :=
  MergePixels p
    (if bool_decide (row >= height secret_img) || bool_decide (col >= width secret_img)
     then kBlackPixel else view_at secret_img col row).

(** ** A small codec for the examples *)

(** An uncompressed container: the eight signature bytes, one byte of width,
    one byte of height, then three bytes per pixel in row-major order.  It
    stands in for Boost.GIL where a statement is run on concrete files. *)
Module RawCodec.

Fixpoint raw_pixels (bs : list Byte.byte) : list rgb8_pixel_t :=
  match bs with
  | r :: g :: b :: rest => Pixel r g b :: raw_pixels rest
  | _ => []
  end.

Definition raw_read (tag : format_tag) (bs : list Byte.byte)
  : option rgb8_image_t :=
  match drop 8 bs with
  | w :: h :: payload =>
      let px := raw_pixels payload in
      if bool_decide (length px = (Byte.to_nat w * Byte.to_nat h)%nat)
      then Some (Image (Byte.to_nat w) (Byte.to_nat h) px)
      else None
  | _ => None
  end.

Definition magic (tag : format_tag) : list Byte.byte :=
  match tag with
  | jpeg_tag => [Byte.xff; Byte.xd8; Byte.xff; Byte.xe0;
                 Byte.x00; Byte.x10; Byte.x4a; Byte.x46]
  | png_tag => [Byte.x89; Byte.x50; Byte.x4e; Byte.x47;
                Byte.x0d; Byte.x0a; Byte.x1a; Byte.x0a]
  end.

Definition raw_write (tag : format_tag) (img : rgb8_image_t)
  : option (list Byte.byte) :=
  Some (magic tag
        ++ [default Byte.x00 (Byte.of_nat (width img));
            default Byte.x00 (Byte.of_nat (height img))]
        ++ flat_map (fun p => [red p; green p; blue p]) (pixels img)).

Definition io : gil_io := GilIO raw_read raw_write.

(** A 4x4 black cover and a 2x2 white secret, both with the PNG signature. *)
Definition cover_file : file :=
  File true (magic png_tag ++ [Byte.x04; Byte.x04] ++ replicate 48 Byte.x00).

Definition secret_file : file :=
  File true (magic png_tag ++ [Byte.x02; Byte.x02] ++ replicate 12 Byte.xff).

Definition disk : gmap string file :=
  {[ "cover.png"%string := cover_file; "secret.png"%string := secret_file ]}.

(** What the reader makes of the two files. *)
Definition cover_img : rgb8_image_t := Image 4 4 (replicate 16 kBlackPixel).

Definition secret_img : rgb8_image_t :=
  Image 2 2 (replicate 4 (Pixel Byte.xff Byte.xff Byte.xff)).

(** The merged image of the two: the white secret shows as 0F in the low
    nibbles of the upper left 2x2 corner. *)
Definition merged_row : list Byte.byte :=
  replicate 6 Byte.x0f ++ replicate 6 Byte.x00.

Definition merged_file : file :=
  File true (magic png_tag ++ [Byte.x04; Byte.x04]
             ++ merged_row ++ merged_row ++ replicate 24 Byte.x00).

(** The image recovered from [merged_file]: white became F0. *)
Definition recovered_row : list Byte.byte :=
  replicate 6 Byte.xf0 ++ replicate 6 Byte.x00.

Definition recovered_bytes (tag : format_tag) : list Byte.byte :=
  magic tag ++ [Byte.x04; Byte.x04]
  ++ recovered_row ++ recovered_row ++ replicate 24 Byte.x00.

End RawCodec.

(** ** The command line front end ([steganography.cc]) *)

Module cli.

(** [std::endl] and the tab of the usage text. *)
Definition endl : string := String (Ascii.ascii_of_nat 10) "".
Definition tab : string := String (Ascii.ascii_of_nat 9) "".

(** What the process has written to [std::cout] and to [std::cerr]. *)
Record console : Type := Console {
  cout : string;
  cerr : string
}.

(** How the process ends: with an exit status, or in [std::terminate] when
    an exception of the codec leaves [main]. *)
Inductive process : Type :=
  | Exited (code : Z) (con : console) (fs : gmap string file)
  | Terminated.

Definition EXIT_FAILURE : Z := 1.

Definition usage : string :=
  ("usage: steganography CMD IN_IMG... OUT_IMG" +:+ endl
   +:+ tab +:+ "CMD" +:+ endl
   +:+ tab +:+ tab +:+ "one of 'merge', 'unmerge', or 'help'" +:+ endl
   +:+ tab +:+ "IN_IMG" +:+ endl +:+ tab +:+ tab +:+ "a jpeg or png image" +:+ endl
   +:+ tab +:+ "OUT_IMG" +:+ endl +:+ tab +:+ tab
   +:+ "a jpeg or png image containing the result of "
   +:+ "executing the parameter" +:+ endl +:+ tab +:+ tab +:+ "CMD" +:+ endl
   +:+ "EXAMPLES" +:+ endl
   +:+ tab +:+ "steganography merge container.png secret.jpg out.png" +:+ endl
   +:+ tab +:+ "steganography unmerge out.png secret.jpg" +:+ endl
   +:+ "NOTES" +:+ endl
   +:+ tab +:+ "The output of the merge command and input to the unmerge "
   +:+ "command must" +:+ endl +:+ tab +:+ "always be a PNG!" +:+ endl)%string.

Definition PrintUsage (con : console) : console :=
  Console (cout con +:+ usage) (cerr con).

Definition PrintErrAndExit (err : string) (con : console) (fs : gmap string file)
  : process :=
  Exited EXIT_FAILURE
    (Console (cout con)
       (cerr con +:+ "error: " +:+ err +:+ endl
        +:+ "try 'steganography help' for more information" +:+ endl))
    fs.

Definition kMergeCmdArgCount : nat := 5.
Definition kUnmergeCmdArgCount : nat := 4.
Definition kMergeCmd : string := "merge".
Definition kUnmergeCmd : string := "unmerge".
Definition kHelpCmd : string := "help".

(** The [switch] on the return code at the end of [main], followed by
    [return 0]. *)
Definition report (rc : RetCode) (con : console) (fs : gmap string file) : process :=
  match rc with
  | kSuccess => Exited 0 con fs
  | kInvalidFileFormat =>
      PrintErrAndExit "invalid format, only JPEG and PNG are accepted" con fs
  | kFileNotFound => PrintErrAndExit "one or more input files do not exist" con fs
  | kInvalidDimensions =>
      PrintErrAndExit "secret image does not fit inside cover image" con fs
  end.

(** [main(argc, argv)], with [argc = length argv]; [argv[i]] is only read
    for [i < argc]. *)
Definition main (io : gil_io) (fs : gmap string file) (argv : list string)
  : process :=
  let argc := length argv in
  let con := Console "" "" in
  if bool_decide (argc < 2) then PrintErrAndExit "missing command" con fs
  else
    let cmd := nth 1 argv ""%string in
    if bool_decide (kMergeCmd <> cmd) && bool_decide (kUnmergeCmd <> cmd)
       && bool_decide (kHelpCmd <> cmd)
    then PrintErrAndExit "unknown CMD value" con fs
    else if bool_decide (kMergeCmd = cmd) && bool_decide (kMergeCmdArgCount <> argc)
    then PrintErrAndExit "invalid arg count for merge command" con fs
    else if bool_decide (kUnmergeCmd = cmd)
            && bool_decide (kUnmergeCmdArgCount <> argc)
    then PrintErrAndExit "invalid arg count for unmerge command" con fs
    else if bool_decide (kMergeCmd = cmd) then
      match Merge io fs (nth 2 argv ""%string) (nth 3 argv ""%string)
              (nth 4 argv ""%string) with
      | Returned rc fs' => report rc con fs'
      | Thrown => Terminated
      end
    else if bool_decide (kUnmergeCmd = cmd) then
      match Unmerge io fs (nth 2 argv ""%string) (nth 3 argv ""%string) with
      | Returned rc fs' => report rc con fs'
      | Thrown => Terminated
      end
    else if bool_decide (kHelpCmd = cmd) then report kSuccess (PrintUsage con) fs
    else report kSuccess con fs.

End cli.

(** ** Further vocabulary *)

(** The eight bytes of the PNG signature. *)
Definition png_signature : list Byte.byte :=
  [Byte.x89; Byte.x50; Byte.x4e; Byte.x47; Byte.x0d; Byte.x0a; Byte.x1a; Byte.x0a].

(** The PNG writer and reader of the codec are lossless on [img]: what the
    writer produces starts with the PNG signature and reads back as [img]. *)
Definition png_lossless_on (io : gil_io) (img : rgb8_image_t) : Prop :=
  forall bytes, write_view io png_tag img = Some bytes ->
    take 8 bytes = png_signature
    /\ read_and_convert_image io png_tag bytes = Some img.

(** * Properties *)

(** ** Bytes and bit masks *)

Section Bits.

Local Open Scope Z_scope.

Lemma to_int_range (c : uint8_t) : 0 <= to_int c < 256.
Proof.
  unfold to_int. pose proof (Byte.to_N_bounded c). lia.
Qed.

Lemma to_int_of_int (z : Z) : to_int (of_int z) = z mod 256.
Proof.
  unfold to_int, of_int.
  assert (Hr : 0 <= z mod 256 < 256) by (apply Z.mod_pos_bound; lia).
  destruct (Byte.of_N (Z.to_N (z mod 256))) as [b|] eqn:E.
  - cbn. rewrite (Byte.to_of_N _ E). lia.
  - apply Byte.of_N_None_iff in E. lia.
Qed.

Lemma of_int_to_int (c : uint8_t) : of_int (to_int c) = c.
Proof.
  unfold to_int, of_int. pose proof (Byte.to_N_bounded c).
  rewrite Z.mod_small by lia. rewrite N2Z.id, Byte.of_to_N. reflexivity.
Qed.

Lemma to_int_inj (c d : uint8_t) : to_int c = to_int d -> c = d.
Proof.
  intros H. rewrite <- (of_int_to_int c), <- (of_int_to_int d). now rewrite H.
Qed.

Lemma testbit_kHighNibble (n : Z) :
  Z.testbit kHighNibble n = (4 <=? n) && (n <? 8).
Proof.
  change kHighNibble with (Z.shiftl (Z.ones 4) 4).
  destruct (Z.leb_spec 4 n).
  - rewrite Z.shiftl_spec by lia. rewrite Z.testbit_ones_nonneg by lia.
    cbn. destruct (Z.ltb_spec (n - 4) 4), (Z.ltb_spec n 8); lia || reflexivity.
  - destruct (Z.neg_nonneg_cases n) as [Hneg | Hpos].
    + now rewrite Z.testbit_neg_r.
    + rewrite Z.shiftl_spec_low by lia. reflexivity.
Qed.

Lemma testbit_kLowNibble (n : Z) :
  Z.testbit kLowNibble n = (0 <=? n) && (n <? 4).
Proof.
  change kLowNibble with (Z.ones 4). apply Z.testbit_ones; lia.
Qed.

Lemma testbit_to_int_high (c : uint8_t) (n : Z) :
  8 <= n -> Z.testbit (to_int c) n = false.
Proof.
  intros Hn. pose proof (to_int_range c).
  rewrite <- (Z.mod_small (to_int c) (2 ^ 8)) by (change (2 ^ 8) with 256; lia).
  apply Z.mod_pow2_bits_high. lia.
Qed.

End Bits.

(** ** The pixel transform *)

Section PixelTransform.

Local Open Scope Z_scope.

(** Bit-by-bit comparison of two integers built from masks and shifts. *)
Ltac split_ranges :=
  repeat match goal with
         | |- context [Z.leb ?a ?b] => destruct (Z.leb_spec a b)
         | |- context [Z.ltb ?a ?b] => destruct (Z.ltb_spec a b)
         end.

Ltac bit_step :=
  first [ rewrite Z.testbit_mod_pow2 by lia
        | rewrite Z.lor_spec
        | rewrite Z.land_spec
        | rewrite Z.shiftr_spec by lia
        | rewrite Z.shiftl_spec by lia
        | rewrite testbit_kHighNibble
        | rewrite testbit_kLowNibble ].

Ltac bool_simpl :=
  rewrite ?andb_false_r, ?andb_true_r, ?orb_false_r, ?orb_true_r,
    ?andb_false_l, ?andb_true_l, ?orb_false_l, ?orb_true_l.

Ltac bitwise n Hn :=
  apply Z.bits_inj'; intros n Hn;
  repeat (progress (repeat bit_step; split_ranges; try lia; bool_simpl));
  try reflexivity; try (f_equal; lia).

Lemma merge_channel_int (c s : uint8_t) :
  to_int (merge_channel c s) =
  Z.lor (Z.land (to_int c) 0xF0) (Z.shiftr (Z.land (to_int s) 0xF0) 4).
Proof.
  unfold merge_channel. rewrite to_int_of_int.
  change 256 with (2 ^ 8). change 0xF0 with kHighNibble.
  bitwise n Hn.
Qed.

Lemma unmerge_channel_int (m : uint8_t) :
  to_int (unmerge_channel m) = Z.shiftl (Z.land (to_int m) 0x0F) 4.
Proof.
  unfold unmerge_channel. rewrite to_int_of_int.
  change 256 with (2 ^ 8). change 0x0F with kLowNibble.
  bitwise n Hn.
Qed.

Lemma MergePixels_channels (cp sp : rgb8_pixel_t) :
  MergePixels cp sp =
  Pixel (merge_channel (red cp) (red sp))
        (merge_channel (green cp) (green sp))
        (merge_channel (blue cp) (blue sp)).
Proof. reflexivity. Qed.

Lemma UnmergePixels_channels (p : rgb8_pixel_t) :
  UnmergePixels p =
  Pixel (unmerge_channel (red p)) (unmerge_channel (green p))
        (unmerge_channel (blue p)).
Proof. reflexivity. Qed.

Lemma unmerge_merge_channel (c s : uint8_t) :
  to_int (unmerge_channel (merge_channel c s)) = Z.land (to_int s) 0xF0.
Proof.
  rewrite unmerge_channel_int, merge_channel_int.
  change 0x0F with kLowNibble. change 0xF0 with kHighNibble.
  bitwise n Hn.
Qed.

(** C4: the merged channel is [(c & 0xF0) | ((s & 0xF0) >> 4)]; its high
    nibble is the cover's high nibble, its low nibble is the secret's high
    nibble shifted down by four; [MergePixels] applies this to each of the
    three channels separately. *)
Theorem MergePixels_spec :
  (forall c s : uint8_t,
      to_int (merge_channel c s) =
        Z.lor (Z.land (to_int c) 0xF0) (Z.shiftr (Z.land (to_int s) 0xF0) 4)
      /\ Z.land (to_int (merge_channel c s)) 0xF0 = Z.land (to_int c) 0xF0
      /\ Z.land (to_int (merge_channel c s)) 0x0F
         = Z.shiftr (Z.land (to_int s) 0xF0) 4)
  /\ (forall cover_pix secret_pix : rgb8_pixel_t,
         forall i : nat, (i < 3)%nat ->
           chan (MergePixels cover_pix secret_pix) i
           = merge_channel (chan cover_pix i) (chan secret_pix i)).
Proof.
  split.
  - intros c s. split; [apply merge_channel_int|].
    rewrite merge_channel_int.
    change 0x0F with kLowNibble. change 0xF0 with kHighNibble.
    split; bitwise n Hn.
  - intros cp sp i Hi. rewrite MergePixels_channels.
    destruct i as [|[|[|i]]]; [reflexivity .. | lia].
Qed.

(** C5: the recovered channel is [(m & 0x0F) << 4], the low nibble of the
    input moved to the high nibble with a zero low nibble; [UnmergePixels]
    applies this to each of the three channels separately. *)
Theorem UnmergePixels_spec :
  (forall m : uint8_t,
      to_int (unmerge_channel m) = Z.shiftl (Z.land (to_int m) 0x0F) 4
      /\ Z.land (to_int (unmerge_channel m)) 0x0F = 0
      /\ Z.shiftr (to_int (unmerge_channel m)) 4 = Z.land (to_int m) 0x0F)
  /\ (forall pixel : rgb8_pixel_t,
         forall i : nat, (i < 3)%nat ->
           chan (UnmergePixels pixel) i = unmerge_channel (chan pixel i)).
Proof.
  split.
  - intros m. split; [apply unmerge_channel_int|].
    rewrite unmerge_channel_int. change 0x0F with kLowNibble.
    split.
    + bitwise n Hn; rewrite Z.bits_0; reflexivity.
    + bitwise n Hn.
  - intros p i Hi. rewrite UnmergePixels_channels.
    destruct i as [|[|[|i]]]; [reflexivity .. | lia].
Qed.

(** C1: unmerging a merged channel gives the secret's high nibble with a
    zero low nibble, [s & 0xF0], for every cover and secret value; the same
    holds channel by channel for whole pixels. *)
Theorem unmerge_merge_roundtrip :
  (forall c s : uint8_t,
      to_int (unmerge_channel (merge_channel c s)) = Z.land (to_int s) 0xF0)
  /\ (forall cover_pix secret_pix : rgb8_pixel_t,
         forall i : nat, (i < 3)%nat ->
           to_int (chan (UnmergePixels (MergePixels cover_pix secret_pix)) i)
           = Z.land (to_int (chan secret_pix i)) 0xF0).
Proof.
  split; [apply unmerge_merge_channel|].
  intros cp sp i Hi.
  rewrite UnmergePixels_channels, MergePixels_channels.
  destruct i as [|[|[|i]]]; [apply unmerge_merge_channel .. | lia].
Qed.

(** C10: the merged channel is a function of the two high nibbles only:
    inputs that agree on [c & 0xF0] and on [s & 0xF0] merge to the same
    value. *)
Theorem merge_channel_high_nibbles_only (c c' s s' : uint8_t) :
  Z.land (to_int c) 0xF0 = Z.land (to_int c') 0xF0 ->
  Z.land (to_int s) 0xF0 = Z.land (to_int s') 0xF0 ->
  merge_channel c s = merge_channel c' s'.
Proof.
  intros Hc Hs. apply to_int_inj.
  rewrite !merge_channel_int, Hc, Hs. reflexivity.
Qed.

Lemma merge_channel_high_nibbles_only_witness :
  merge_channel Byte.x12 Byte.xa0 = merge_channel Byte.x1f Byte.xab.
Proof.
  apply (merge_channel_high_nibbles_only Byte.x12 Byte.x1f Byte.xa0 Byte.xab);
    reflexivity.
Defined.

(** The same for whole pixels: the merged pixel only depends on the high
    nibbles of the channels of the two inputs. *)
Lemma MergePixels_high_nibbles_only (cp cp' sp sp' : rgb8_pixel_t) :
  (forall i, (i < 3)%nat ->
     Z.land (to_int (chan cp i)) 0xF0 = Z.land (to_int (chan cp' i)) 0xF0) ->
  (forall i, (i < 3)%nat ->
     Z.land (to_int (chan sp i)) 0xF0 = Z.land (to_int (chan sp' i)) 0xF0) ->
  MergePixels cp sp = MergePixels cp' sp'.
Proof.
  intros Hc Hs. rewrite !MergePixels_channels.
  pose proof (Hc 0%nat ltac:(lia)). pose proof (Hc 1%nat ltac:(lia)).
  pose proof (Hc 2%nat ltac:(lia)). pose proof (Hs 0%nat ltac:(lia)).
  pose proof (Hs 1%nat ltac:(lia)). pose proof (Hs 2%nat ltac:(lia)).
  cbn [chan] in *.
  f_equal; apply to_int_inj; rewrite !merge_channel_int; congruence.
Qed.

End PixelTransform.

(** ** The format sniffer *)

Section Sniffer.

Local Open Scope Z_scope.

Implicit Types (fs : filesystem) (filename : string) (bs : list Byte.byte).

Lemma padded_header (bs : list Byte.byte) :
  ifstream_read bs (replicate kHeaderSize Byte.x00) =
  [nth 0 bs Byte.x00; nth 1 bs Byte.x00; nth 2 bs Byte.x00; nth 3 bs Byte.x00;
   nth 4 bs Byte.x00; nth 5 bs Byte.x00; nth 6 bs Byte.x00; nth 7 bs Byte.x00].
Proof.
  do 8 (destruct bs as [|? bs]; [reflexivity|]).
  unfold ifstream_read. cbn. now rewrite drop_nil.
Qed.

Lemma pack_no_wrap (w : Z) (c : Byte.byte) :
  0 <= w < 2 ^ 56 ->
  Z.lor (to_uint64 (Z.shiftl w kByteShift)) (to_int c) = w * 256 + to_int c.
Proof.
  intros Hw. unfold to_uint64, kByteShift.
  rewrite Z.shiftl_mul_pow2 by lia. change (2 ^ 8) with 256.
  rewrite Z.mod_small by lia.
  symmetry. apply Z.add_nocarry_lor.
  apply Z.bits_inj'. intros n Hn. rewrite Z.land_spec, Z.bits_0.
  destruct (Z.ltb_spec n 8).
  - change 256 with (2 ^ 8). rewrite Z.mul_pow2_bits_low by lia. reflexivity.
  - rewrite testbit_to_int_high by lia. apply andb_false_r.
Qed.

Lemma header_word_8 (b0 b1 b2 b3 b4 b5 b6 b7 : Byte.byte) :
  header_word [b0; b1; b2; b3; b4; b5; b6; b7] =
  (to_int b0 * 256 + to_int b1) * 2 ^ 48
  + (((((to_int b2 * 256 + to_int b3) * 256 + to_int b4) * 256 + to_int b5) * 256
      + to_int b6) * 256 + to_int b7).
Proof.
  pose proof (to_int_range b0). pose proof (to_int_range b1).
  pose proof (to_int_range b2). pose proof (to_int_range b3).
  pose proof (to_int_range b4). pose proof (to_int_range b5).
  pose proof (to_int_range b6). pose proof (to_int_range b7).
  unfold header_word. cbn [fold_left].
  repeat match goal with
         | |- context [Z.lor (to_uint64 (Z.shiftl ?w kByteShift)) (to_int ?c)] =>
             rewrite (pack_no_wrap w c) by lia
         end.
  lia.
Qed.

Lemma land_shiftl_mask (w K n : Z) :
  0 <= n -> Z.land w (Z.shiftl K n) = Z.shiftl (Z.land (Z.shiftr w n) K) n.
Proof.
  intros Hn. apply Z.bits_inj'. intros m Hm.
  rewrite Z.land_spec. destruct (Z.ltb_spec m n).
  - rewrite !Z.shiftl_spec_low by lia. apply andb_false_r.
  - rewrite !Z.shiftl_spec, Z.land_spec, Z.shiftr_spec by lia.
    do 2 f_equal. lia.
Qed.

Lemma jpeg_mask_test (w : Z) :
  (Z.land w kJpegSignature =? kJpegSignature) =
  (Z.land (Z.shiftr w 48) 0xFFD8 =? 0xFFD8).
Proof.
  change kJpegSignature with (Z.shiftl 0xFFD8 48).
  rewrite land_shiftl_mask by lia.
  destruct (Z.eqb_spec (Z.land (Z.shiftr w 48) 0xFFD8) 0xFFD8) as [E | E].
  - rewrite E. apply Z.eqb_refl.
  - apply Z.eqb_neq. intros H. apply E.
    apply (f_equal (fun z => Z.shiftr z 48)) in H.
    rewrite !Z.shiftr_shiftl_l, Z.sub_diag, !Z.shiftl_0_r in H by lia. exact H.
Qed.

Lemma signature_type_jpeg_iff (w : Z) :
  signature_type w = kJpeg <-> Z.land (Z.shiftr w 48) 0xFFD8 = 0xFFD8.
Proof.
  unfold signature_type. rewrite jpeg_mask_test.
  destruct (Z.eqb_spec w kPngSignature) as [-> | _].
  - split; [discriminate | intros H; vm_compute in H; discriminate].
  - destruct (Z.eqb_spec (Z.land (Z.shiftr w 48) 0xFFD8) 0xFFD8); split;
      congruence.
Qed.

Lemma two_bytes_shiftr (b0 b1 : Byte.byte) :
  Z.shiftr (to_int b0 * 256 + to_int b1) 8 = to_int b0.
Proof.
  pose proof (to_int_range b1).
  rewrite Z.shiftr_div_pow2 by lia. symmetry.
  apply Z.div_unique with (r := to_int b1); [left; simpl; lia | simpl; lia].
Qed.

Lemma two_bytes_low (b0 b1 : Byte.byte) :
  Z.land (to_int b0 * 256 + to_int b1) (Z.ones 8) = to_int b1.
Proof.
  pose proof (to_int_range b1).
  rewrite Z.land_ones by lia. change (2 ^ 8) with 256.
  rewrite Z.add_comm, Z.mod_add by lia. apply Z.mod_small. lia.
Qed.

Lemma top16_mask_bytes (b0 b1 : Byte.byte) :
  Z.land (to_int b0 * 256 + to_int b1) 0xFFD8 = 0xFFD8 ->
  b0 = Byte.xff /\ Z.land (to_int b1) 0xD8 = 0xD8.
Proof.
  intros H. split.
  - apply to_int_inj. change (to_int Byte.xff) with 255.
    apply (f_equal (fun z => Z.shiftr z 8)) in H.
    rewrite Z.shiftr_land, two_bytes_shiftr in H.
    change (Z.shiftr 0xFFD8 8) with (Z.ones 8) in H.
    pose proof (to_int_range b0).
    rewrite Z.land_ones, Z.mod_small in H by (simpl; lia). exact H.
  - apply (f_equal (fun z => Z.land z (Z.ones 8))) in H.
    rewrite <- Z.land_assoc in H.
    change (Z.land 0xFFD8 (Z.ones 8)) with (Z.land (Z.ones 8) 0xD8) in H.
    rewrite Z.land_assoc, two_bytes_low in H. exact H.
Qed.

Lemma header_top16 (b0 b1 b2 b3 b4 b5 b6 b7 : Byte.byte) :
  Z.shiftr (header_word [b0; b1; b2; b3; b4; b5; b6; b7]) 48
  = to_int b0 * 256 + to_int b1.
Proof.
  pose proof (to_int_range b2). pose proof (to_int_range b3).
  pose proof (to_int_range b4). pose proof (to_int_range b5).
  pose proof (to_int_range b6). pose proof (to_int_range b7).
  rewrite header_word_8, Z.shiftr_div_pow2 by lia. symmetry.
  eapply Z.div_unique; [|rewrite Z.mul_comm; reflexivity]. left. lia.
Qed.


(** What [GetImageType] computes on a file it can open: the signature tests
    on the first eight bytes, bytes past the end of the file being zero. *)
Lemma GetImageType_open fs filename bs :
  ifstream_open fs filename = Some bs ->
  GetImageType fs filename =
  signature_type
    (header_word
       [nth 0 bs Byte.x00; nth 1 bs Byte.x00; nth 2 bs Byte.x00; nth 3 bs Byte.x00;
        nth 4 bs Byte.x00; nth 5 bs Byte.x00; nth 6 bs Byte.x00; nth 7 bs Byte.x00]).
Proof.
  intros Hopen. unfold GetImageType. rewrite Hopen. cbn zeta.
  now rewrite padded_header.
Qed.

(** The code's JPEG test on an open file, in terms of its first two bytes:
    the first is FF and the second has every bit of D8 set. *)
Lemma GetImageType_jpeg_bytes fs filename bs :
  ifstream_open fs filename = Some bs ->
  GetImageType fs filename = kJpeg ->
  nth 0 bs Byte.x00 = Byte.xff
  /\ Z.land (to_int (nth 1 bs Byte.x00)) 0xD8 = 0xD8.
Proof.
  intros Hopen. rewrite (GetImageType_open _ _ _ Hopen).
  rewrite signature_type_jpeg_iff, header_top16. apply top16_mask_bytes.
Qed.

Lemma GetImageType_FFD8 fs filename bs :
  ifstream_open fs filename = Some bs ->
  nth 0 bs Byte.x00 = Byte.xff -> nth 1 bs Byte.x00 = Byte.xd8 ->
  GetImageType fs filename = kJpeg.
Proof.
  intros Hopen H0 H1. rewrite (GetImageType_open _ _ _ Hopen).
  rewrite signature_type_jpeg_iff, header_top16, H0, H1. reflexivity.
Qed.

(** The direction of the JPEG test that holds as intended: a word whose
    top 16 bits are FF D8 is JPEG, whatever the other 48 bits. *)
Lemma signature_type_FFD8 (w : Z) :
  Z.shiftr w 48 = 0xFFD8 -> signature_type w = kJpeg.
Proof. intros H. apply signature_type_jpeg_iff. now rewrite H. Qed.

Lemma signature_type_cases (w : Z) :
  signature_type w = kPng /\ w = kPngSignature
  \/ signature_type w = kJpeg
  \/ signature_type w = kUnknown.
Proof.
  unfold signature_type.
  destruct (Z.eqb_spec w kPngSignature); [left; now split|].
  destruct (Z.land w kJpegSignature =? kJpegSignature); auto.
Qed.

(** A file shorter than eight bytes never matches the PNG signature: the
    last byte of the buffer is still zero. *)
Lemma GetImageType_short_not_png fs filename bs :
  ifstream_open fs filename = Some bs -> (length bs < 8)%nat ->
  GetImageType fs filename <> kPng.
Proof.
  intros Hopen Hlen. rewrite (GetImageType_open _ _ _ Hopen).
  rewrite (nth_overflow bs Byte.x00 (n := 7)) by lia.
  intros Hpng.
  destruct (signature_type_cases
              (header_word
                 [nth 0 bs Byte.x00; nth 1 bs Byte.x00; nth 2 bs Byte.x00;
                  nth 3 bs Byte.x00; nth 4 bs Byte.x00; nth 5 bs Byte.x00;
                  nth 6 bs Byte.x00; Byte.x00]))
    as [[_ Hw] | [H | H]]; [| congruence ..].
  rewrite header_word_8 in Hw. change (to_int Byte.x00) with 0 in Hw.
  unfold kPngSignature in Hw. lia.
Qed.

(** Examples of section 8 of the specification. *)
Example classify_png :
  GetImageType
    {[ "a.png"%string :=
         File true [Byte.x89; Byte.x50; Byte.x4e; Byte.x47;
                    Byte.x0d; Byte.x0a; Byte.x1a; Byte.x0a] ]}
    "a.png" = kPng.
Proof. vm_compute. reflexivity. Qed.

Example classify_jfif :
  GetImageType
    {[ "a.jpg"%string :=
         File true [Byte.xff; Byte.xd8; Byte.xff; Byte.xe0;
                    Byte.x00; Byte.x10; Byte.x4a; Byte.x46] ]}
    "a.jpg" = kJpeg.
Proof. vm_compute. reflexivity. Qed.

Example classify_zeros :
  GetImageType
    {[ "zeros"%string := File true (replicate 8 Byte.x00) ]} "zeros" = kUnknown.
Proof. vm_compute. reflexivity. Qed.

Example classify_missing : GetImageType ∅ "nowhere" = kUnknown.
Proof. reflexivity. Qed.

(** C2: the JPEG test compares [word & 0xFFD8000000000000] with the
    signature, so it only asks for the bits of FF D8 to be set.  The eight
    bytes FF D9 00 00 00 00 00 00 are not the PNG signature, their top 16 bits
    are FF D9 and not FF D8, and the code classifies them as JPEG. *)
Theorem GetImageType_FFD9_is_jpeg :
  let header := [Byte.xff; Byte.xd9; Byte.x00; Byte.x00;
                 Byte.x00; Byte.x00; Byte.x00; Byte.x00] in
  let fs : filesystem := {[ "eoi.bin"%string := File true header ]} in
  header_word header = 0xFFD9000000000000
  /\ header_word header <> kPngSignature
  /\ Z.shiftr (header_word header) 48 <> 0xFFD8
  /\ signature_type (header_word header) = kJpeg
  /\ GetImageType fs "eoi.bin" = kJpeg.
Proof.
  cbv zeta. repeat split; try (vm_compute; congruence).
Qed.

(** C3, as stated, fails: a readable file holding only the two bytes FF D8 is
    shorter than eight bytes and is classified as JPEG. *)
Lemma GetImageType_short_file_not_unknown :
  ~ (forall fs filename bs,
        ifstream_open fs filename = Some bs -> (length bs < 8)%nat ->
        GetImageType fs filename = kUnknown).
Proof.
  intros H.
  specialize (H {[ "short.jpg"%string := File true [Byte.xff; Byte.xd8] ]}
                "short.jpg"%string [Byte.xff; Byte.xd8]).
  assert (Hj : GetImageType
                 {[ "short.jpg"%string := File true [Byte.xff; Byte.xd8] ]}
                 "short.jpg" = kJpeg) by (vm_compute; reflexivity).
  rewrite H in Hj; [discriminate | vm_compute; reflexivity | cbn; lia].
Qed.

(** C3, amended: a file that cannot be opened is Unknown.  For a file of
    fewer than eight bytes the bytes not read count as zero: it is never PNG;
    it is Unknown when it has fewer than two bytes, or does not begin with
    FF, or its second byte lacks one of the bits of D8; and it is JPEG when
    it begins with FF D8. *)
Theorem GetImageType_unopened_or_short fs filename :
  (ifstream_open fs filename = None -> GetImageType fs filename = kUnknown)
  /\ (forall bs,
         ifstream_open fs filename = Some bs -> (length bs < 8)%nat ->
         GetImageType fs filename <> kPng
         /\ ((length bs < 2)%nat
             \/ nth 0 bs Byte.x00 <> Byte.xff
             \/ Z.land (to_int (nth 1 bs Byte.x00)) 0xD8 <> 0xD8 ->
             GetImageType fs filename = kUnknown)
         /\ (forall rest, bs = Byte.xff :: Byte.xd8 :: rest ->
             GetImageType fs filename = kJpeg)).
Proof.
  split.
  - intros Hopen. unfold GetImageType. now rewrite Hopen.
  - intros bs Hopen Hlen.
    pose proof (GetImageType_short_not_png _ _ _ Hopen Hlen) as Hpng.
    split; [exact Hpng|]. split.
    + intros Hbad.
      destruct (GetImageType fs filename) eqn:Ht; [| congruence | reflexivity].
      destruct (GetImageType_jpeg_bytes _ _ _ Hopen Ht) as [H0 H1].
      destruct Hbad as [Hshort | [Hff | Hd8]]; [| contradiction ..].
      rewrite (nth_overflow bs Byte.x00 (n := 1)) in H1 by lia.
      vm_compute in H1. discriminate.
    + intros rest ->. now apply (GetImageType_FFD8 _ _ _ Hopen).
Qed.

Lemma GetImageType_unopened_or_short_witness :
  let fs : filesystem :=
    {[ "locked.png"%string :=
         File false [Byte.x89; Byte.x50; Byte.x4e; Byte.x47;
                     Byte.x0d; Byte.x0a; Byte.x1a; Byte.x0a];
       "tiny.png"%string := File true [Byte.x89; Byte.x50; Byte.x4e; Byte.x47];
       "ff01.bin"%string := File true [Byte.xff; Byte.x01];
       "soi.jpg"%string := File true [Byte.xff; Byte.xd8; Byte.xff] ]} in
  GetImageType fs "locked.png" = kUnknown
  /\ GetImageType fs "tiny.png" = kUnknown
  /\ GetImageType fs "ff01.bin" = kUnknown
  /\ GetImageType fs "soi.jpg" = kJpeg.
Proof.
  cbv zeta. split; [|split; [|split]].
  - apply GetImageType_unopened_or_short. vm_compute. reflexivity.
  - eapply GetImageType_unopened_or_short.
    + vm_compute. reflexivity.
    + cbn. lia.
    + right. left. discriminate.
  - eapply GetImageType_unopened_or_short.
    + vm_compute. reflexivity.
    + cbn. lia.
    + right. right. vm_compute. discriminate.
  - eapply GetImageType_unopened_or_short.
    + vm_compute. reflexivity.
    + cbn. lia.
    + reflexivity.
Defined.

End Sniffer.

(** ** Sweeping a grid *)

Section Grids.

Implicit Types (img out : rgb8_image_t) (p : rgb8_pixel_t) (col row : nat).

Lemma for_loop_ind {St : Type} (P : nat -> St -> Prop) (n : nat)
    (body : nat -> St -> St) (s : St) :
  P 0 s ->
  (forall i t, i < n -> P i t -> P (S i) (body i t)) ->
  P n (for_loop n body s).
Proof.
  intros H0 Hstep. induction n as [|n IH]; [exact H0|].
  cbn. apply Hstep; [lia|]. apply IH. intros i t Hi. apply Hstep. lia.
Qed.

Lemma for_loop_ext {St : Type} (n : nat) (body body' : nat -> St -> St) (s : St) :
  (forall i t, i < n -> body i t = body' i t) ->
  for_loop n body s = for_loop n body' s.
Proof.
  intros Hext. induction n as [|n IH]; [reflexivity|].
  cbn. rewrite IH by (intros; apply Hext; lia). apply Hext. lia.
Qed.

Lemma index_in_buffer img col row :
  wf_image img -> col < width img -> row < height img ->
  row * width img + col < length (pixels img).
Proof. unfold wf_image. intros -> Hc Hr. nia. Qed.

Lemma index_inj (w col row col' row' : nat) :
  col < w -> col' < w -> row * w + col = row' * w + col' ->
  col = col' /\ row = row'.
Proof.
  intros Hc Hc' E.
  destruct (Nat.lt_trichotomy row row') as [Hlt | [-> | Hlt]].
  - pose proof (Nat.mul_le_mono_r (S row) row' w Hlt) as Hle.
    rewrite Nat.mul_succ_l in Hle. lia.
  - lia.
  - pose proof (Nat.mul_le_mono_r (S row') row w Hlt) as Hle.
    rewrite Nat.mul_succ_l in Hle. lia.
Qed.

Lemma view_at_set_eq img col row p :
  wf_image img -> col < width img -> row < height img ->
  view_at (view_set img col row p) col row = p.
Proof.
  intros Hwf Hc Hr. unfold view_at, view_set. cbn.
  rewrite list_lookup_insert_eq by now apply index_in_buffer. reflexivity.
Qed.

Lemma view_at_set_ne img col row col' row' p :
  col < width img -> col' < width img -> (col, row) <> (col', row') ->
  view_at (view_set img col row p) col' row' = view_at img col' row'.
Proof.
  intros Hc Hc' Hne. unfold view_at, view_set. cbn.
  rewrite list_lookup_insert_ne; [reflexivity|].
  intros E. apply index_inj in E as [-> ->]; [|assumption ..]. now apply Hne.
Qed.

Lemma wf_view_set img col row p : wf_image img -> wf_image (view_set img col row p).
Proof. unfold wf_image, view_set. cbn. now rewrite length_insert. Qed.

Lemma swept_start f img : wf_image img -> swept f img 0 0 img.
Proof.
  intros Hwf. repeat split; try assumption.
  intros c r _ _. rewrite bool_decide_eq_false_2; [reflexivity | lia].
Qed.

Lemma swept_next_row f img row out :
  swept f img row (width img) out -> swept f img (S row) 0 out.
Proof.
  intros (Hw & Hh & Hwf & Hpix). repeat split; try assumption.
  intros c r Hc Hr. rewrite (Hpix c r Hc Hr).
  apply (f_equal (fun b : bool => if b then _ else _)).
  apply bool_decide_ext. lia.
Qed.

Lemma swept_step f img row col out :
  row < height img -> col < width img ->
  swept f img row col out ->
  swept f img row (S col) (view_set out col row (f col row (view_at out col row))).
Proof.
  intros Hr Hc (Hw & Hh & Hwf & Hpix). repeat split.
  - exact Hw.
  - exact Hh.
  - now apply wf_view_set.
  - intros c r Hc' Hr'.
    destruct (decide ((col, row) = (c, r))) as [E | Hne].
    + injection E as <- <-.
      rewrite view_at_set_eq by (rewrite ?Hw, ?Hh; assumption).
      rewrite bool_decide_eq_true_2 by lia.
      rewrite (Hpix col row Hc Hr), bool_decide_eq_false_2 by lia. reflexivity.
    + rewrite view_at_set_ne by (rewrite ?Hw; assumption).
      rewrite (Hpix c r Hc' Hr').
      apply (f_equal (fun b : bool => if b then _ else _)).
      apply bool_decide_ext.
      assert (c <> col \/ r <> row) by
        (destruct (decide (c = col)), (decide (r = row)); subst; tauto || auto).
      lia.
Qed.

Lemma sweep_spec f img :
  wf_image img ->
  width (sweep f img) = width img /\ height (sweep f img) = height img
  /\ wf_image (sweep f img)
  /\ forall col row, col < width img -> row < height img ->
       view_at (sweep f img) col row = f col row (view_at img col row).
Proof.
  intros Hwf.
  assert (H : swept f img (height img) 0 (sweep f img)).
  { unfold sweep.
    apply (for_loop_ind (fun row out => swept f img row 0 out)).
    - now apply swept_start.
    - intros row out Hr Hout. apply swept_next_row.
      apply (for_loop_ind (fun col o => swept f img row col o)); [exact Hout|].
      intros col o Hc Ho. now apply swept_step. }
  destruct H as (Hw & Hh & Hwf' & Hpix). repeat split; try assumption.
  intros col row Hc Hr. rewrite (Hpix col row Hc Hr).
  rewrite bool_decide_eq_true_2 by lia. reflexivity.
Qed.


Lemma merge_loop_sweep (secret_img output_img : rgb8_image_t) :
  merge_loop secret_img output_img = sweep (merged_pixel secret_img) output_img.
Proof.
  unfold merge_loop, sweep. apply for_loop_ext. intros row o _.
  apply for_loop_ext. intros col t _. unfold merged_pixel.
  now destruct (bool_decide (row >= height secret_img)
                || bool_decide (col >= width secret_img)).
Qed.

Lemma unmerge_loop_sweep (secret_img output_img : rgb8_image_t) :
  unmerge_loop secret_img output_img =
  sweep (fun col row _ => UnmergePixels (view_at secret_img col row)) output_img.
Proof. reflexivity. Qed.

(** The grid [Unmerge] builds from a decoded grid: same dimensions, every
    pixel unmerged. *)
Lemma unmerge_loop_spec img :
  wf_image img ->
  width (unmerge_loop img img) = width img
  /\ height (unmerge_loop img img) = height img
  /\ forall col row, col < width img -> row < height img ->
       view_at (unmerge_loop img img) col row = UnmergePixels (view_at img col row).
Proof.
  intros Hwf. rewrite unmerge_loop_sweep.
  destruct (sweep_spec (fun col row _ => UnmergePixels (view_at img col row))
              img Hwf) as (Hw & Hh & _ & Hpix).
  auto.
Qed.

(** Merging and then unmerging whole grids, with no codec in between: inside
    the secret's bounds every channel comes back as the secret's high
    nibble. *)
Lemma grid_roundtrip (cover_img secret_img : rgb8_image_t) col row i :
  wf_image cover_img ->
  col < width secret_img -> row < height secret_img ->
  width secret_img <= width cover_img -> height secret_img <= height cover_img ->
  i < 3 ->
  let merged := merge_loop secret_img cover_img in
  to_int (chan (view_at (unmerge_loop merged merged) col row) i)
  = Z.land (to_int (chan (view_at secret_img col row) i)) 0xF0.
Proof.
  intros Hwf Hc Hr Hw Hh Hi merged. subst merged.
  destruct (sweep_spec (merged_pixel secret_img) cover_img Hwf)
    as (Hmw & Hmh & Hmwf & Hmpix).
  rewrite <- merge_loop_sweep in Hmw, Hmh, Hmwf, Hmpix.
  destruct (unmerge_loop_spec _ Hmwf) as (_ & _ & Hupix).
  rewrite Hupix, Hmpix by lia. unfold merged_pixel.
  rewrite !bool_decide_eq_false_2 by lia. cbn [orb].
  rewrite UnmergePixels_channels, MergePixels_channels.
  destruct i as [|[|[|i]]]; [apply unmerge_merge_channel .. | lia].
Qed.

End Grids.

(** ** The extension of the output path *)

Section Extension.

Local Open Scope string_scope.

Implicit Types (s sv stem : string).

Lemma string_app_cons (a : Ascii.ascii) s1 s2 :
  String a s1 +:+ s2 = String a (s1 +:+ s2).
Proof. reflexivity. Qed.

Lemma string_length_app s1 s2 :
  String.length (s1 +:+ s2) = String.length s1 + String.length s2.
Proof.
  induction s1 as [|a s1 IH]; [reflexivity|].
  rewrite string_app_cons. simpl. now rewrite IH.
Qed.

Lemma string_app_assoc s1 s2 s3 : (s1 +:+ s2) +:+ s3 = s1 +:+ (s2 +:+ s3).
Proof.
  induction s1 as [|a s1 IH]; [reflexivity|].
  rewrite !string_app_cons. now rewrite IH.
Qed.

Lemma substring_all s : String.substring 0 (String.length s) s = s.
Proof. induction s as [|a s IH]; simpl; [reflexivity | now f_equal]. Qed.

Lemma substring_app_skip stem s n m :
  String.substring (String.length stem + n) m (stem +:+ s) = String.substring n m s.
Proof.
  induction stem as [|a stem IH]; [reflexivity|].
  rewrite string_app_cons. simpl. exact IH.
Qed.

Lemma substring_split s n :
  n <= String.length s ->
  s = String.substring 0 n s +:+ String.substring n (String.length s - n) s.
Proof.
  revert n. induction s as [|a s IH]; intros n Hn.
  - cbn in Hn. replace n with 0 by lia. reflexivity.
  - destruct n as [|n].
    + simpl. now rewrite substring_all.
    + simpl in *. rewrite string_app_cons. f_equal. apply IH. lia.
Qed.

Lemma ends_with_spec s sv : ends_with s sv = true <-> has_suffix s sv.
Proof.
  unfold ends_with, has_suffix. rewrite andb_true_iff, bool_decide_eq_true.
  rewrite String.eqb_eq. split.
  - intros [Hlen Hsub].
    exists (String.substring 0 (String.length s - String.length sv) s).
    pose proof (substring_split s (String.length s - String.length sv)) as Hsplit.
    replace (String.length s - (String.length s - String.length sv))
      with (String.length sv) in Hsplit by lia.
    rewrite Hsub in Hsplit. apply Hsplit. lia.
  - intros [stem ->]. rewrite string_length_app. split; [lia|].
    replace (String.length stem + String.length sv - String.length sv)
      with (String.length stem + 0) by lia.
    rewrite substring_app_skip. apply substring_all.
Qed.

Lemma HasJpegExtension_spec (filename : string) :
  HasJpegExtension filename = true <-> jpeg_suffix filename.
Proof.
  unfold HasJpegExtension, kExtensions, jpeg_suffix. cbn [existsb].
  rewrite orb_false_r, !orb_true_iff, !ends_with_spec. tauto.
Qed.

Lemma has_suffix_trans s sv sv' :
  has_suffix s sv -> has_suffix sv sv' -> has_suffix s sv'.
Proof.
  intros [x ->] [y ->]. exists (x +:+ y). now rewrite string_app_assoc.
Qed.

Lemma has_suffix_same_length s sv sv' :
  has_suffix s sv -> has_suffix s sv' -> String.length sv = String.length sv' ->
  sv = sv'.
Proof.
  intros H H' Hlen. apply ends_with_spec in H, H'. unfold ends_with in *.
  rewrite andb_true_iff, String.eqb_eq in H, H'.
  destruct H as [_ <-], H' as [_ <-]. now rewrite Hlen.
Qed.

(** A mixed-case extension is not one of the four. *)
Lemma mixed_case_not_jpeg stem : ~ jpeg_suffix (stem +:+ ".Jpg").
Proof.
  assert (Hs : has_suffix (stem +:+ ".Jpg") ".Jpg") by now exists stem.
  intros [H | [H | [H | H]]].
  - discriminate (has_suffix_same_length _ _ _ Hs H eq_refl).
  - assert (H' : has_suffix (stem +:+ ".Jpg") "jpeg")
      by (apply (has_suffix_trans _ _ _ H); now exists ".").
    discriminate (has_suffix_same_length _ _ _ Hs H' eq_refl).
  - discriminate (has_suffix_same_length _ _ _ Hs H eq_refl).
  - assert (H' : has_suffix (stem +:+ ".Jpg") "JPEG")
      by (apply (has_suffix_trans _ _ _ H); now exists ".").
    discriminate (has_suffix_same_length _ _ _ Hs H' eq_refl).
Qed.

End Extension.

(** ** Merge and Unmerge *)

Section EntryPoints.

Implicit Types (io : gil_io) (fs : gmap string file) (cover secret outfile : string).

Lemma WriteImage_inv io fs image filename type fs' :
  WriteImage io fs image filename type = Some fs' ->
  exists bytes,
    write_view io (if bool_decide (type = kJpeg) then jpeg_tag else png_tag) image
    = Some bytes
    /\ fs' = <[filename := File true bytes]> fs.
Proof.
  unfold WriteImage. destruct (bool_decide (type = kJpeg)); cbn;
    (destruct (write_view io _ image) as [bytes|]; cbn; [|discriminate]);
    intros [= <-]; eauto.
Qed.

Lemma Merge_decoded io fs cover secret outfile cover_img secret_img :
  exists_ fs cover = true -> exists_ fs secret = true ->
  GetImageType fs cover <> kUnknown -> GetImageType fs secret <> kUnknown ->
  ReadImage io fs cover (GetImageType fs cover) = Some cover_img ->
  ReadImage io fs secret (GetImageType fs secret) = Some secret_img ->
  Merge io fs cover secret outfile =
  if bool_decide (height secret_img > height cover_img)
     || bool_decide (width secret_img > width cover_img)
  then Returned kInvalidDimensions fs
  else match WriteImage io fs (merge_loop secret_img cover_img) outfile kPng with
       | Some fs' => Returned kSuccess fs'
       | None => Thrown
       end.
Proof.
  intros Hc Hs Htc Hts Hrc Hrs. unfold Merge.
  rewrite Hc, Hs. cbn [negb orb].
  rewrite (bool_decide_eq_false_2 _ Htc), (bool_decide_eq_false_2 _ Hts).
  cbn [orb]. rewrite Hrc, Hrs. reflexivity.
Qed.

Lemma Merge_returned_inv io fs cover secret outfile rc fs' :
  Merge io fs cover secret outfile = Returned rc fs' ->
  (rc <> kSuccess /\ rc <> kInvalidDimensions /\ fs' = fs)
  \/ exists cover_img secret_img,
       exists_ fs cover = true /\ exists_ fs secret = true
       /\ GetImageType fs cover <> kUnknown /\ GetImageType fs secret <> kUnknown
       /\ ReadImage io fs cover (GetImageType fs cover) = Some cover_img
       /\ ReadImage io fs secret (GetImageType fs secret) = Some secret_img.
Proof.
  unfold Merge.
  destruct (exists_ fs cover) eqn:Hc; cbn [negb orb];
    [|intros [= <- <-]; left; repeat split; discriminate].
  destruct (exists_ fs secret) eqn:Hs; cbn [negb orb];
    [|intros [= <- <-]; left; repeat split; discriminate].
  destruct (bool_decide (GetImageType fs cover = kUnknown)) eqn:Htc; cbn [orb];
    [intros [= <- <-]; left; repeat split; discriminate|].
  destruct (bool_decide (GetImageType fs secret = kUnknown)) eqn:Hts; cbn [orb];
    [intros [= <- <-]; left; repeat split; discriminate|].
  apply bool_decide_eq_false in Htc, Hts.
  destruct (ReadImage io fs cover _) as [cover_img|] eqn:Hrc; [|discriminate].
  destruct (ReadImage io fs secret _) as [secret_img|] eqn:Hrs; [|discriminate].
  intros _. right. exists cover_img, secret_img. repeat split; assumption.
Qed.


Lemma ReadImage_wf io fs filename type img :
  decodes_grids io -> ReadImage io fs filename type = Some img -> wf_image img.
Proof.
  intros Hio. unfold ReadImage.
  destruct (bool_decide (type = kJpeg)), (ifstream_open fs filename) as [bs|];
    cbn; try discriminate; apply Hio.
Qed.

Lemma RawCodec_decodes_grids : decodes_grids RawCodec.io.
Proof.
  intros tag bs img. cbn. unfold RawCodec.raw_read.
  destruct (drop 8 bs) as [|w [|h payload]]; try discriminate.
  case_bool_decide as Hlen; [|discriminate].
  intros [= <-]. exact Hlen.
Qed.

Lemma classified_known fs filename :
  GetImageType fs filename = kJpeg \/ GetImageType fs filename = kPng ->
  GetImageType fs filename <> kUnknown.
Proof. intros [-> | ->]; discriminate. Qed.

Lemma merge_channel_black (c : uint8_t) :
  to_int (merge_channel c Byte.x00) = Z.land (to_int c) 0xF0.
Proof.
  rewrite merge_channel_int. change (to_int Byte.x00) with 0%Z.
  rewrite Z.land_0_l, Z.shiftr_0_l. apply Z.lor_0_r.
Qed.

(** C6: when cover and secret exist, classify as JPEG or PNG and decode,
    [Merge] returns [kInvalidDimensions] exactly when the secret is higher
    or wider than the cover (equal dimensions pass), and a call that returns
    [kInvalidDimensions] leaves the file system as it was: nothing is written
    to [outfile]. *)
Theorem Merge_invalid_dimensions io fs cover secret outfile cover_img secret_img :
  exists_ fs cover = true -> exists_ fs secret = true ->
  GetImageType fs cover = kJpeg \/ GetImageType fs cover = kPng ->
  GetImageType fs secret = kJpeg \/ GetImageType fs secret = kPng ->
  ReadImage io fs cover (GetImageType fs cover) = Some cover_img ->
  ReadImage io fs secret (GetImageType fs secret) = Some secret_img ->
  ((exists fs', Merge io fs cover secret outfile = Returned kInvalidDimensions fs')
   <-> height secret_img > height cover_img \/ width secret_img > width cover_img)
  /\ (forall fs', Merge io fs cover secret outfile = Returned kInvalidDimensions fs'
                  -> fs' = fs).
Proof.
  intros Hc Hs Htc Hts Hrc Hrs.
  rewrite (Merge_decoded io fs cover secret outfile cover_img secret_img)
    by auto using classified_known.
  destruct (decide (height secret_img > height cover_img)) as [Hh | Hh].
  - rewrite (bool_decide_eq_true_2 _ Hh). cbn [orb]. split.
    + split; [auto | eauto].
    + now intros fs' [= <-].
  - rewrite (bool_decide_eq_false_2 _ Hh). cbn [orb].
    destruct (decide (width secret_img > width cover_img)) as [Hw | Hw].
    + rewrite (bool_decide_eq_true_2 _ Hw). split.
      * split; [auto | eauto].
      * now intros fs' [= <-].
    + rewrite (bool_decide_eq_false_2 _ Hw).
      destruct (WriteImage io fs _ outfile kPng); split;
        try (intros fs' [=]); (split; [intros [fs' [=]] | tauto]).
Qed.

Lemma Merge_success_inv io fs cover secret outfile fs' :
  Merge io fs cover secret outfile = Returned kSuccess fs' ->
  exists cover_img secret_img bytes,
    ReadImage io fs cover (GetImageType fs cover) = Some cover_img
    /\ ReadImage io fs secret (GetImageType fs secret) = Some secret_img
    /\ height secret_img <= height cover_img
    /\ width secret_img <= width cover_img
    /\ write_view io png_tag (merge_loop secret_img cover_img) = Some bytes
    /\ fs' = <[outfile := File true bytes]> fs.
Proof.
  intros HM.
  destruct (Merge_returned_inv _ _ _ _ _ _ _ HM)
    as [(Hrc & _) | (cover_img & secret_img & Hc & Hs & Htc & Hts & Hrc & Hrs)];
    [congruence|].
  rewrite (Merge_decoded io fs cover secret outfile cover_img secret_img) in HM
    by assumption.
  destruct (decide (height secret_img > height cover_img)) as [Hh | Hh];
    [rewrite (bool_decide_eq_true_2 _ Hh) in HM; discriminate|].
  destruct (decide (width secret_img > width cover_img)) as [Hw | Hw];
    [rewrite (bool_decide_eq_true_2 _ Hw), orb_true_r in HM; discriminate|].
  rewrite (bool_decide_eq_false_2 _ Hh), (bool_decide_eq_false_2 _ Hw) in HM.
  cbn [orb] in HM.
  destruct (WriteImage io fs _ outfile kPng) as [fs''|] eqn:HW; [|discriminate].
  injection HM as ->.
  apply WriteImage_inv in HW as (bytes & Hbytes & ->).
  exists cover_img, secret_img, bytes. repeat split; try assumption; lia.
Qed.

Lemma Merge_invalid_dimensions_witness :
  ((exists fs', Merge RawCodec.io RawCodec.disk "secret.png" "cover.png" "out.png"
                = Returned kInvalidDimensions fs')
   <-> height RawCodec.cover_img > height RawCodec.secret_img
       \/ width RawCodec.cover_img > width RawCodec.secret_img)
  /\ (forall fs', Merge RawCodec.io RawCodec.disk "secret.png" "cover.png" "out.png"
                  = Returned kInvalidDimensions fs'
                  -> fs' = RawCodec.disk).
Proof.
  apply Merge_invalid_dimensions;
    first [ right; vm_compute; reflexivity | vm_compute; reflexivity ].
Defined.

(** C7: on success the grid written has the width and height of the cover;
    at every coordinate inside it, outside the secret's bounds the pixel is
    the cover pixel merged with black, so that each channel is [cover & 0xF0],
    and inside them it is the cover pixel merged with the secret pixel at the
    same coordinate. *)
Theorem Merge_success_grid io fs cover secret outfile fs' :
  decodes_grids io ->
  Merge io fs cover secret outfile = Returned kSuccess fs' ->
  exists cover_img secret_img output_img bytes,
    ReadImage io fs cover (GetImageType fs cover) = Some cover_img
    /\ ReadImage io fs secret (GetImageType fs secret) = Some secret_img
    /\ write_view io png_tag output_img = Some bytes
    /\ fs' = <[outfile := File true bytes]> fs
    /\ width output_img = width cover_img
    /\ height output_img = height cover_img
    /\ wf_image output_img
    /\ forall row col, row < height output_img -> col < width output_img ->
         (row >= height secret_img \/ col >= width secret_img ->
          view_at output_img col row
          = MergePixels (view_at cover_img col row) kBlackPixel
          /\ forall i, i < 3 ->
               to_int (chan (view_at output_img col row) i)
               = Z.land (to_int (chan (view_at cover_img col row) i)) 0xF0)
         /\ (row < height secret_img /\ col < width secret_img ->
             view_at output_img col row
             = MergePixels (view_at cover_img col row)
                           (view_at secret_img col row)).
Proof.
  intros Hio HM.
  destruct (Merge_success_inv _ _ _ _ _ _ HM)
    as (cover_img & secret_img & bytes & Hrc & Hrs & _ & _ & Hbytes & ->).
  pose proof (ReadImage_wf _ _ _ _ _ Hio Hrc) as Hwf.
  destruct (sweep_spec (merged_pixel secret_img) cover_img Hwf)
    as (Hw & Hh & Hwf' & Hpix).
  rewrite <- merge_loop_sweep in Hw, Hh, Hwf', Hpix.
  exists cover_img, secret_img, (merge_loop secret_img cover_img), bytes.
  repeat split; try assumption.
  - rewrite Hpix by lia. unfold merged_pixel.
    assert (E : bool_decide (row >= height secret_img)
                || bool_decide (col >= width secret_img) = true).
    { apply orb_true_iff. rewrite !bool_decide_eq_true. assumption. }
    now rewrite E.
  - intros i Hi. rewrite Hpix by lia. unfold merged_pixel.
    assert (E : bool_decide (row >= height secret_img)
                || bool_decide (col >= width secret_img) = true).
    { apply orb_true_iff. rewrite !bool_decide_eq_true. assumption. }
    rewrite E, MergePixels_channels.
    destruct i as [|[|[|i]]]; [apply merge_channel_black .. | lia].
  - intros [Hr Hc]. rewrite Hpix by lia. unfold merged_pixel.
    rewrite !bool_decide_eq_false_2 by lia. reflexivity.
Qed.

Lemma Merge_success_grid_witness :
  exists output_img : rgb8_image_t,
    width output_img = 4 /\ height output_img = 4
    /\ view_at output_img 0 0 = Pixel Byte.x0f Byte.x0f Byte.x0f
    /\ view_at output_img 1 1 = Pixel Byte.x0f Byte.x0f Byte.x0f
    /\ view_at output_img 2 1 = kBlackPixel
    /\ view_at output_img 3 3 = kBlackPixel.
Proof.
  assert (HM : Merge RawCodec.io RawCodec.disk "cover.png" "secret.png" "out.png"
               = Returned kSuccess
                   (<["out.png"%string := RawCodec.merged_file]> RawCodec.disk))
    by (vm_compute; reflexivity).
  destruct (Merge_success_grid _ _ _ _ _ _ RawCodec_decodes_grids HM)
    as (c & s & o & bytes & Hc & Hs & _ & _ & Hw & Hh & _ & Hpix).
  vm_compute in Hc. injection Hc as <-.
  vm_compute in Hs. injection Hs as <-.
  cbn in Hw, Hh. exists o. rewrite Hw, Hh in Hpix.
  split; [exact Hw|]. split; [exact Hh|].
  destruct (Hpix 0 0 ltac:(lia) ltac:(lia)) as [_ H00].
  destruct (Hpix 1 1 ltac:(lia) ltac:(lia)) as [_ H11].
  destruct (Hpix 1 2 ltac:(lia) ltac:(lia)) as [H21 _].
  destruct (Hpix 3 3 ltac:(lia) ltac:(lia)) as [H33 _].
  cbn [height width] in H00, H11, H21, H33.
  split; [rewrite H00 by lia; reflexivity|].
  split; [rewrite H11 by lia; reflexivity|].
  split; [apply H21; lia | apply H33; lia].
Defined.

(** C8: on success the file at [outfile] holds the merged grid encoded
    by the PNG writer, whatever the extension of [outfile] and whatever the
    formats of the two inputs. *)
Theorem Merge_writes_png io fs cover secret outfile fs' :
  Merge io fs cover secret outfile = Returned kSuccess fs' ->
  exists cover_img secret_img bytes,
    ReadImage io fs cover (GetImageType fs cover) = Some cover_img
    /\ ReadImage io fs secret (GetImageType fs secret) = Some secret_img
    /\ write_view io png_tag (merge_loop secret_img cover_img) = Some bytes
    /\ fs' = <[outfile := File true bytes]> fs.
Proof.
  intros HM.
  destruct (Merge_success_inv _ _ _ _ _ _ HM)
    as (cover_img & secret_img & bytes & Hrc & Hrs & _ & _ & Hbytes & ->).
  exists cover_img, secret_img, bytes. auto.
Qed.

Lemma Merge_writes_png_witness :
  exists cover_img secret_img bytes,
    ReadImage RawCodec.io RawCodec.disk "cover.png"
      (GetImageType RawCodec.disk "cover.png") = Some cover_img
    /\ ReadImage RawCodec.io RawCodec.disk "secret.png"
         (GetImageType RawCodec.disk "secret.png") = Some secret_img
    /\ write_view RawCodec.io png_tag (merge_loop secret_img cover_img) = Some bytes
    /\ <["out.jpg"%string := RawCodec.merged_file]> RawCodec.disk
       = <["out.jpg"%string := File true bytes]> RawCodec.disk.
Proof.
  apply Merge_writes_png. vm_compute. reflexivity.
Defined.

(** C9: on success the file at [outfile] holds the recovered grid encoded
    by the JPEG writer when [outfile] ends with [.jpg], [.jpeg], [.JPG] or
    [.JPEG], and by the PNG writer for every other path. *)
Theorem Unmerge_output_format io fs secret outfile fs' :
  Unmerge io fs secret outfile = Returned kSuccess fs' ->
  exists secret_img bytes,
    ReadImage io fs secret (GetImageType fs secret) = Some secret_img
    /\ fs' = <[outfile := File true bytes]> fs
    /\ (jpeg_suffix outfile ->
        write_view io jpeg_tag (unmerge_loop secret_img secret_img) = Some bytes)
    /\ (~ jpeg_suffix outfile ->
        write_view io png_tag (unmerge_loop secret_img secret_img) = Some bytes).
Proof.
  unfold Unmerge.
  destruct (exists_ fs secret); cbn [negb]; [|discriminate].
  destruct (bool_decide (GetImageType fs secret = kUnknown)); [discriminate|].
  destruct (ReadImage io fs secret _) as [secret_img|]; [|discriminate].
  cbn zeta.
  destruct (HasJpegExtension outfile) eqn:HJ;
    (destruct (WriteImage io fs _ outfile _) as [fs''|] eqn:HW; [|discriminate]);
    intros [= <-]; apply WriteImage_inv in HW as (bytes & Hbytes & ->);
    exists secret_img, bytes; cbn in Hbytes;
    (split; [reflexivity|]); (split; [reflexivity|]);
    rewrite <- HasJpegExtension_spec, HJ; split; intros H;
    first [exact Hbytes | congruence].
Qed.

Lemma Unmerge_output_format_witness :
  let fs : gmap string file := {[ "merged.png"%string := RawCodec.merged_file ]} in
  exists secret_img bytes,
    ReadImage RawCodec.io fs "merged.png" (GetImageType fs "merged.png")
    = Some secret_img
    /\ <["hidden.Jpg"%string := File true (RawCodec.recovered_bytes png_tag)]> fs
       = <["hidden.Jpg"%string := File true bytes]> fs
    /\ (jpeg_suffix "hidden.Jpg" ->
        write_view RawCodec.io jpeg_tag (unmerge_loop secret_img secret_img)
        = Some bytes)
    /\ (~ jpeg_suffix "hidden.Jpg" ->
        write_view RawCodec.io png_tag (unmerge_loop secret_img secret_img)
        = Some bytes).
Proof.
  cbv zeta. apply Unmerge_output_format. vm_compute. reflexivity.
Defined.

End EntryPoints.

(** * Further properties *)

(** ** Arithmetic of the pixel transform *)

Section PixelArithmetic.

Local Open Scope Z_scope.

Ltac nibble_bits n Hn :=
  apply Z.bits_inj'; intros n Hn;
  repeat (progress
            (repeat first [ rewrite Z.lor_spec | rewrite Z.land_spec
                          | rewrite Z.shiftr_spec by lia
                          | rewrite Z.shiftl_spec by lia
                          | rewrite testbit_kHighNibble
                          | rewrite testbit_kLowNibble
                          | rewrite Z.bits_0 ];
             repeat match goal with
                    | |- context [Z.leb ?a ?b] => destruct (Z.leb_spec a b)
                    | |- context [Z.ltb ?a ?b] => destruct (Z.ltb_spec a b)
                    end;
             try lia;
             rewrite ?andb_false_r, ?andb_true_r, ?orb_false_r, ?orb_true_r,
               ?andb_false_l, ?andb_true_l, ?orb_false_l, ?orb_true_l));
  try reflexivity; try (f_equal; lia).

Lemma high_nibble_arith (c : uint8_t) :
  Z.land (to_int c) 0xF0 = 16 * (to_int c / 16).
Proof.
  transitivity (Z.shiftl (Z.shiftr (to_int c) 4) 4).
  - change 0xF0 with kHighNibble. nibble_bits n Hn.
    + symmetry. apply testbit_to_int_high. lia.
    + symmetry. apply Z.testbit_neg_r. lia.
  - rewrite Z.shiftl_mul_pow2, Z.shiftr_div_pow2 by lia.
    change (2 ^ 4) with 16. lia.
Qed.

Lemma low_nibble_arith (c : uint8_t) :
  Z.land (to_int c) 0x0F = to_int c mod 16.
Proof. change 0x0F with (Z.ones 4). now rewrite Z.land_ones by lia. Qed.

Lemma merge_channel_arith (c s : uint8_t) :
  to_int (merge_channel c s) = 16 * (to_int c / 16) + to_int s / 16.
Proof.
  rewrite merge_channel_int, !high_nibble_arith.
  pose proof (to_int_range s) as Hs.
  assert (Hq : 0 <= to_int s / 16 < 16)
    by (split; [apply Z.div_pos; lia | apply Z.div_lt_upper_bound; lia]).
  rewrite Z.shiftr_div_pow2 by lia. change (2 ^ 4) with 16.
  replace (16 * (to_int s / 16) / 16) with (to_int s / 16)
    by (rewrite Z.mul_comm, Z.div_mul; lia).
  symmetry. apply Z.add_nocarry_lor.
  replace (16 * (to_int c / 16)) with (Z.shiftl (to_int c / 16) 4)
    by (rewrite Z.shiftl_mul_pow2 by lia; change (2 ^ 4) with 16; lia).
  apply Z.bits_inj'. intros n Hn. rewrite Z.land_spec, Z.bits_0.
  destruct (Z.ltb_spec n 4).
  - rewrite Z.shiftl_spec_low by lia. reflexivity.
  - replace (Z.testbit (to_int s / 16) n) with false; [apply andb_false_r|].
    symmetry. rewrite <- (Z.mod_small (to_int s / 16) (2 ^ 4)) by (simpl; lia).
    apply Z.mod_pow2_bits_high. lia.
Qed.

Lemma unmerge_channel_arith (m : uint8_t) :
  to_int (unmerge_channel m) = 16 * (to_int m mod 16).
Proof.
  rewrite unmerge_channel_int, low_nibble_arith, Z.shiftl_mul_pow2 by lia.
  change (2 ^ 4) with 16. lia.
Qed.

(** X1: the merged channel is the cover rounded down to a multiple of 16 plus the
    secret divided by 16: the visible change of the cover is less than one
    nibble, and what comes back of the secret is the secret rounded down to a
    multiple of 16. *)
Theorem merge_channel_distortion (c s : uint8_t) :
  to_int (merge_channel c s) = 16 * (to_int c / 16) + to_int s / 16
  /\ - 15 <= to_int (merge_channel c s) - to_int c <= 15
  /\ to_int (unmerge_channel (merge_channel c s)) = 16 * (to_int s / 16)
  /\ 0 <= to_int s - to_int (unmerge_channel (merge_channel c s)) <= 15.
Proof.
  pose proof (to_int_range c) as Hc. pose proof (to_int_range s) as Hs.
  rewrite unmerge_merge_channel, high_nibble_arith, merge_channel_arith.
  pose proof (Z.div_mod (to_int c) 16 ltac:(lia)).
  pose proof (Z.div_mod (to_int s) 16 ltac:(lia)).
  pose proof (Z.mod_pos_bound (to_int c) 16 ltac:(lia)).
  pose proof (Z.mod_pos_bound (to_int s) 16 ltac:(lia)).
  assert (0 <= to_int s / 16 < 16)
    by (split; [apply Z.div_pos; lia | apply Z.div_lt_upper_bound; lia]).
  repeat split; lia.
Qed.

Lemma merge_channel_absorbs (c s s' : uint8_t) :
  merge_channel (merge_channel c s) s' = merge_channel c s'.
Proof.
  apply to_int_inj. rewrite !merge_channel_arith.
  pose proof (to_int_range c) as Hc. pose proof (to_int_range s) as Hs.
  assert (0 <= to_int s / 16 < 16)
    by (split; [apply Z.div_pos; lia | apply Z.div_lt_upper_bound; lia]).
  do 2 f_equal.
  rewrite Z.mul_comm, Z.div_add_l by lia. rewrite (Z.div_small (to_int s / 16)) by lia.
  lia.
Qed.

(** X2: merging a second secret into an already merged channel or pixel
    replaces the first secret completely: nothing of it is left in the
    result, and merging the same secret twice changes nothing more. *)
Theorem merge_channel_overwrites :
  (forall c s s' : uint8_t,
      merge_channel (merge_channel c s) s' = merge_channel c s')
  /\ (forall cover_pix secret_pix secret_pix' : rgb8_pixel_t,
         MergePixels (MergePixels cover_pix secret_pix) secret_pix'
         = MergePixels cover_pix secret_pix').
Proof.
  split; [apply merge_channel_absorbs|].
  intros cp sp sp'. rewrite !MergePixels_channels. cbn [red green blue].
  now rewrite !merge_channel_absorbs.
Qed.

(** X3: the same for whole grids: running the loops of [Merge] with a secret
    over a grid that already holds another one gives, pixel by pixel, what
    merging into the original cover gives. *)
Theorem merge_loop_overwrites (cover_img secret_img secret_img' : rgb8_image_t)
    (col row : nat) :
  wf_image cover_img ->
  (col < width cover_img)%nat -> (row < height cover_img)%nat ->
  view_at (merge_loop secret_img' (merge_loop secret_img cover_img)) col row
  = view_at (merge_loop secret_img' cover_img) col row.
Proof.
  intros Hwf Hc Hr.
  destruct (sweep_spec (merged_pixel secret_img) cover_img Hwf)
    as (Hw1 & Hh1 & Hwf1 & Hpix1).
  destruct (sweep_spec (merged_pixel secret_img') cover_img Hwf)
    as (_ & _ & _ & Hpix2).
  rewrite <- merge_loop_sweep in Hw1, Hh1, Hwf1, Hpix1, Hpix2.
  destruct (sweep_spec (merged_pixel secret_img')
              (merge_loop secret_img cover_img) Hwf1) as (_ & _ & _ & Hpix3).
  rewrite <- merge_loop_sweep in Hpix3.
  rewrite Hpix3, Hpix1, Hpix2 by lia. unfold merged_pixel.
  rewrite !MergePixels_channels. cbn [red green blue].
  now rewrite !merge_channel_absorbs.
Qed.

Lemma merge_loop_overwrites_witness :
  view_at (merge_loop RawCodec.cover_img
             (merge_loop RawCodec.secret_img RawCodec.cover_img)) 0 0
  = view_at (merge_loop RawCodec.cover_img RawCodec.cover_img) 0 0.
Proof.
  apply merge_loop_overwrites; [reflexivity | cbn; lia | cbn; lia].
Defined.

(** X4: where the secret is black (the fill outside the secret's bounds), the
    pixel recovered by [UnmergePixels] is black, whatever the cover. *)
Theorem unmerge_merge_black (cover_pix : rgb8_pixel_t) :
  UnmergePixels (MergePixels cover_pix kBlackPixel) = kBlackPixel.
Proof.
  rewrite UnmergePixels_channels, MergePixels_channels. cbn [red green blue].
  unfold kBlackPixel at 4.
  f_equal; apply to_int_inj; rewrite unmerge_merge_channel; reflexivity.
Qed.

(** X5: unmerging is idempotent up to one step: a recovered pixel carries no
    hidden data, and unmerging it again gives black. *)
Theorem unmerge_unmerge_black (pixel : rgb8_pixel_t) :
  UnmergePixels (UnmergePixels pixel) = kBlackPixel.
Proof.
  assert (H : forall m, unmerge_channel (unmerge_channel m) = Byte.x00).
  { intros m. apply to_int_inj.
    rewrite unmerge_channel_arith, (unmerge_channel_arith m).
    rewrite (Z.mul_comm 16 (to_int m mod 16)), Z.mod_mul by lia. reflexivity. }
  rewrite !UnmergePixels_channels. cbn [red green blue]. now rewrite !H.
Qed.

End PixelArithmetic.

(** ** The format sniffer, completely *)

Section SnifferComplete.

Local Open Scope Z_scope.

Implicit Types (fs : gmap string file) (filename : string) (bs : list Byte.byte).

(** X6: the packing loop reads an eight byte buffer as a big-endian number; the
    64-bit shifts lose nothing. *)
Theorem header_word_big_endian (b0 b1 b2 b3 b4 b5 b6 b7 : Byte.byte) :
  header_word [b0; b1; b2; b3; b4; b5; b6; b7]
  = to_int b0 * 2 ^ 56 + to_int b1 * 2 ^ 48 + to_int b2 * 2 ^ 40
    + to_int b3 * 2 ^ 32 + to_int b4 * 2 ^ 24 + to_int b5 * 2 ^ 16
    + to_int b6 * 2 ^ 8 + to_int b7
  /\ 0 <= header_word [b0; b1; b2; b3; b4; b5; b6; b7] < 2 ^ 64.
Proof.
  pose proof (to_int_range b0). pose proof (to_int_range b1).
  pose proof (to_int_range b2). pose proof (to_int_range b3).
  pose proof (to_int_range b4). pose proof (to_int_range b5).
  pose proof (to_int_range b6). pose proof (to_int_range b7).
  rewrite header_word_8. split; lia.
Qed.

Lemma take_8_nth bs :
  (8 <= length bs)%nat ->
  take 8 bs =
  [nth 0 bs Byte.x00; nth 1 bs Byte.x00; nth 2 bs Byte.x00; nth 3 bs Byte.x00;
   nth 4 bs Byte.x00; nth 5 bs Byte.x00; nth 6 bs Byte.x00; nth 7 bs Byte.x00].
Proof.
  intros Hlen.
  do 8 (destruct bs as [|? bs]; [cbn in Hlen; lia|]). reflexivity.
Qed.

Lemma nth_take_8 bs (i : nat) :
  (i < 8)%nat -> nth i (take 8 bs) Byte.x00 = nth i bs Byte.x00.
Proof.
  intros Hi.
  do 8 (destruct bs as [|? bs]; [now destruct i as [|[|[|[|[|[|[|[|i]]]]]]]]|]).
  destruct i as [|[|[|[|[|[|[|[|i]]]]]]]]; try reflexivity. lia.
Qed.

Lemma GetImageType_png_signature fs filename bs :
  ifstream_open fs filename = Some bs -> take 8 bs = png_signature ->
  GetImageType fs filename = kPng.
Proof.
  intros Hopen Htake. rewrite (GetImageType_open _ _ _ Hopen).
  rewrite <- !(nth_take_8 bs) by lia. rewrite Htake. vm_compute. reflexivity.
Qed.

(** X7: [GetImageType] answers PNG exactly for the files it can open whose first
    eight bytes are the PNG signature. *)
Theorem GetImageType_png_iff fs filename :
  GetImageType fs filename = kPng
  <-> exists bs, ifstream_open fs filename = Some bs /\ take 8 bs = png_signature.
Proof.
  split.
  - intros Hpng.
    destruct (ifstream_open fs filename) as [bs|] eqn:Hopen;
      [|unfold GetImageType in Hpng; rewrite Hopen in Hpng; discriminate].
    exists bs. split; [reflexivity|].
    rewrite (GetImageType_open _ _ _ Hopen) in Hpng.
    destruct (signature_type_cases
                (header_word
                   [nth 0 bs Byte.x00; nth 1 bs Byte.x00; nth 2 bs Byte.x00;
                    nth 3 bs Byte.x00; nth 4 bs Byte.x00; nth 5 bs Byte.x00;
                    nth 6 bs Byte.x00; nth 7 bs Byte.x00]))
      as [[_ Hw] | [H | H]]; [| congruence ..].
    clear Hpng. rewrite header_word_8 in Hw. unfold kPngSignature in Hw.
    pose proof (to_int_range (nth 0 bs Byte.x00)).
    pose proof (to_int_range (nth 1 bs Byte.x00)).
    pose proof (to_int_range (nth 2 bs Byte.x00)).
    pose proof (to_int_range (nth 3 bs Byte.x00)).
    pose proof (to_int_range (nth 4 bs Byte.x00)).
    pose proof (to_int_range (nth 5 bs Byte.x00)).
    pose proof (to_int_range (nth 6 bs Byte.x00)).
    pose proof (to_int_range (nth 7 bs Byte.x00)).
    assert (H0' : nth 0 bs Byte.x00 = Byte.x89) by (apply to_int_inj; cbn; lia).
    assert (H1' : nth 1 bs Byte.x00 = Byte.x50) by (apply to_int_inj; cbn; lia).
    assert (H2' : nth 2 bs Byte.x00 = Byte.x4e) by (apply to_int_inj; cbn; lia).
    assert (H3' : nth 3 bs Byte.x00 = Byte.x47) by (apply to_int_inj; cbn; lia).
    assert (H4' : nth 4 bs Byte.x00 = Byte.x0d) by (apply to_int_inj; cbn; lia).
    assert (H5' : nth 5 bs Byte.x00 = Byte.x0a) by (apply to_int_inj; cbn; lia).
    assert (H6' : nth 6 bs Byte.x00 = Byte.x1a) by (apply to_int_inj; cbn; lia).
    assert (H7' : nth 7 bs Byte.x00 = Byte.x0a) by (apply to_int_inj; cbn; lia).
    assert (Hlen : (8 <= length bs)%nat).
    { destruct (Nat.le_gt_cases 8 (length bs)) as [Hle | Hgt]; [exact Hle|].
      rewrite (nth_overflow bs Byte.x00 (n := 7)) in H7' by lia. discriminate. }
    rewrite (take_8_nth bs Hlen), H0', H1', H2', H3', H4', H5', H6', H7'.
    reflexivity.
  - intros (bs & Hopen & Htake). now apply (GetImageType_png_signature _ _ bs).
Qed.

Lemma second_byte_mask (b1 : Byte.byte) :
  Z.land (to_int b1) 0xD8 = 0xD8 ->
  Z.land (to_int Byte.xff * 256 + to_int b1) 0xFFD8 = 0xFFD8.
Proof.
  destruct b1; intros H; vm_compute in H; first [discriminate H | reflexivity].
Qed.

(** X8: [GetImageType] answers JPEG exactly for the files it can open whose first
    byte is FF and whose second byte has every bit of D8 set (bytes past
    the end of the file counting as zero); the other six bytes are free. *)
Theorem GetImageType_jpeg_iff fs filename :
  GetImageType fs filename = kJpeg
  <-> exists bs, ifstream_open fs filename = Some bs
                 /\ nth 0 bs Byte.x00 = Byte.xff
                 /\ Z.land (to_int (nth 1 bs Byte.x00)) 0xD8 = 0xD8.
Proof.
  split.
  - intros Hj.
    destruct (ifstream_open fs filename) as [bs|] eqn:Hopen;
      [|unfold GetImageType in Hj; rewrite Hopen in Hj; discriminate].
    exists bs. split; [reflexivity|].
    now apply (GetImageType_jpeg_bytes fs filename).
  - intros (bs & Hopen & H0 & H1).
    rewrite (GetImageType_open _ _ _ Hopen).
    rewrite signature_type_jpeg_iff, header_top16, H0.
    now apply second_byte_mask.
Qed.

(** X9: only the first eight bytes of a file matter: two readable files that
    agree on them get the same type. *)
Theorem GetImageType_first_eight_bytes fs fs' filename filename' bs bs' :
  ifstream_open fs filename = Some bs ->
  ifstream_open fs' filename' = Some bs' ->
  take 8 bs = take 8 bs' ->
  GetImageType fs filename = GetImageType fs' filename'.
Proof.
  intros Hopen Hopen' Htake.
  rewrite (GetImageType_open _ _ _ Hopen), (GetImageType_open _ _ _ Hopen').
  rewrite <- !(nth_take_8 bs), <- !(nth_take_8 bs') by lia.
  now rewrite Htake.
Qed.

Lemma GetImageType_first_eight_bytes_witness :
  GetImageType {[ "a"%string := File true (png_signature ++ [Byte.x01; Byte.x02]) ]} "a"
  = GetImageType {[ "b"%string := File true (png_signature ++ [Byte.xff]) ]} "b".
Proof.
  eapply GetImageType_first_eight_bytes; vm_compute; reflexivity.
Defined.

End SnifferComplete.

(** ** Outcomes of Merge and Unmerge *)

Section Outcomes.

Implicit Types (io : gil_io) (fs : gmap string file).
Implicit Types (cover secret outfile : string).

(** The checks of [Merge] in the order the code makes them. *)
Lemma Merge_unfold io fs cover secret outfile :
  Merge io fs cover secret outfile =
  if negb (exists_ fs cover) || negb (exists_ fs secret) then
    Returned kFileNotFound fs
  else if bool_decide (GetImageType fs cover = kUnknown)
          || bool_decide (GetImageType fs secret = kUnknown)
  then Returned kInvalidFileFormat fs
  else
    match ReadImage io fs cover (GetImageType fs cover) with
    | None => Thrown
    | Some cover_img =>
        match ReadImage io fs secret (GetImageType fs secret) with
        | None => Thrown
        | Some secret_img =>
            if bool_decide (height secret_img > height cover_img)
               || bool_decide (width secret_img > width cover_img)
            then Returned kInvalidDimensions fs
            else
              match write_view io png_tag (merge_loop secret_img cover_img) with
              | Some bytes =>
                  Returned kSuccess (<[outfile := File true bytes]> fs)
              | None => Thrown
              end
        end
    end.
Proof.
  unfold Merge, WriteImage.
  rewrite (bool_decide_eq_false_2 (kPng = kJpeg)) by discriminate.
  destruct (negb (exists_ fs cover) || negb (exists_ fs secret)); [reflexivity|].
  destruct (bool_decide (GetImageType fs cover = kUnknown)
            || bool_decide (GetImageType fs secret = kUnknown)); [reflexivity|].
  destruct (ReadImage io fs cover _) as [cover_img|]; [|reflexivity].
  destruct (ReadImage io fs secret _) as [secret_img|]; [|reflexivity].
  destruct (bool_decide (height secret_img > height cover_img)
            || bool_decide (width secret_img > width cover_img)); [reflexivity|].
  now destruct (write_view io png_tag _).
Qed.

Lemma Unmerge_unfold io fs secret outfile :
  Unmerge io fs secret outfile =
  if negb (exists_ fs secret) then Returned kFileNotFound fs
  else if bool_decide (GetImageType fs secret = kUnknown)
  then Returned kInvalidFileFormat fs
  else
    match ReadImage io fs secret (GetImageType fs secret) with
    | None => Thrown
    | Some secret_img =>
        match write_view io (if HasJpegExtension outfile then jpeg_tag else png_tag)
                (unmerge_loop secret_img secret_img) with
        | Some bytes => Returned kSuccess (<[outfile := File true bytes]> fs)
        | None => Thrown
        end
    end.
Proof.
  unfold Unmerge, WriteImage.
  rewrite (bool_decide_eq_false_2 (kPng = kJpeg)) by discriminate.
  rewrite (bool_decide_eq_true_2 (kJpeg = kJpeg)) by reflexivity.
  destruct (negb (exists_ fs secret)); [reflexivity|].
  destruct (bool_decide (GetImageType fs secret = kUnknown)); [reflexivity|].
  destruct (ReadImage io fs secret _) as [secret_img|]; [|reflexivity].
  cbn zeta.
  destruct (HasJpegExtension outfile); now destruct (write_view io _ _).
Qed.

Ltac outcome_cases :=
  repeat match goal with
         | |- context [if ?b then _ else _] => destruct b eqn:?
         | |- context [match ?o with Some _ => _ | None => _ end] =>
             destruct o eqn:?
         end.

(** X12: when [Merge] answers [kFileNotFound], the cover or the secret does
    not exist, and the file system is as it was: the answer is given before
    any file is opened or written. *)
Theorem Merge_file_not_found_missing io fs cover secret outfile fs' :
  Merge io fs cover secret outfile = Returned kFileNotFound fs' ->
  (exists_ fs cover = false \/ exists_ fs secret = false) /\ fs' = fs.
Proof.
  rewrite Merge_unfold.
  destruct (exists_ fs cover), (exists_ fs secret); cbn [negb orb];
    try (intros [= <-]; split; [auto | reflexivity]).
  outcome_cases; discriminate.
Qed.

Lemma Merge_file_not_found_missing_witness :
  (exists_ RawCodec.disk "cover.png" = false
   \/ exists_ RawCodec.disk "lost.png" = false)
  /\ RawCodec.disk = RawCodec.disk.
Proof.
  apply (Merge_file_not_found_missing RawCodec.io RawCodec.disk "cover.png"
           "lost.png" "cover.png").
  vm_compute. reflexivity.
Defined.

(** X13: [Merge] answers [kInvalidFileFormat] exactly when both files exist and
    one of them is not classified as JPEG or PNG. *)
Theorem Merge_invalid_format_iff io fs cover secret outfile :
  Merge io fs cover secret outfile = Returned kInvalidFileFormat fs
  <-> exists_ fs cover = true /\ exists_ fs secret = true
      /\ (GetImageType fs cover = kUnknown \/ GetImageType fs secret = kUnknown).
Proof.
  rewrite Merge_unfold.
  destruct (exists_ fs cover), (exists_ fs secret); cbn [negb orb];
    try (split; [discriminate | intros (? & ? & _); discriminate]).
  destruct (decide (GetImageType fs cover = kUnknown)) as [Hc | Hc].
  { rewrite (bool_decide_eq_true_2 _ Hc). cbn [orb]. split; auto. }
  rewrite (bool_decide_eq_false_2 _ Hc). cbn [orb].
  destruct (decide (GetImageType fs secret = kUnknown)) as [Hs | Hs].
  { rewrite (bool_decide_eq_true_2 _ Hs). split; auto. }
  rewrite (bool_decide_eq_false_2 _ Hs).
  split; [|intros (_ & _ & [|]); contradiction].
  outcome_cases; discriminate.
Qed.

(** X14: a file that exists but cannot be opened is reported as an invalid
    format, not as a missing file. *)
Theorem Merge_unreadable_input io fs cover secret outfile :
  exists_ fs cover = true -> exists_ fs secret = true ->
  ifstream_open fs cover = None \/ ifstream_open fs secret = None ->
  Merge io fs cover secret outfile = Returned kInvalidFileFormat fs.
Proof.
  intros Hc Hs Hopen. rewrite Merge_unfold, Hc, Hs. cbn [negb orb].
  assert (Hu : GetImageType fs cover = kUnknown \/ GetImageType fs secret = kUnknown)
    by (unfold GetImageType; destruct Hopen as [-> | ->]; auto).
  destruct Hu as [-> | ->]; [reflexivity|].
  now rewrite (bool_decide_eq_true_2 (kUnknown = kUnknown)), orb_true_r.
Qed.

Lemma Merge_unreadable_input_witness :
  let fs : gmap string file :=
    <["locked.png"%string := File false (contents RawCodec.secret_file)]>
      RawCodec.disk in
  Merge RawCodec.io fs "cover.png" "locked.png" "out.png"
  = Returned kInvalidFileFormat fs.
Proof.
  cbv zeta. apply Merge_unreadable_input;
    [vm_compute; reflexivity .. | right; vm_compute; reflexivity].
Defined.

(** X15: [Merge] is aborted by an exception exactly when both files exist and are
    classified, and then the cover does not decode, or the secret does not
    decode, or the secret fits and the PNG writer fails. *)
Theorem Merge_thrown_iff io fs cover secret outfile :
  Merge io fs cover secret outfile = Thrown
  <-> exists_ fs cover = true /\ exists_ fs secret = true
      /\ GetImageType fs cover <> kUnknown /\ GetImageType fs secret <> kUnknown
      /\ (ReadImage io fs cover (GetImageType fs cover) = None
          \/ exists cover_img,
               ReadImage io fs cover (GetImageType fs cover) = Some cover_img
               /\ (ReadImage io fs secret (GetImageType fs secret) = None
                   \/ exists secret_img,
                        ReadImage io fs secret (GetImageType fs secret)
                        = Some secret_img
                        /\ height secret_img <= height cover_img
                        /\ width secret_img <= width cover_img
                        /\ write_view io png_tag (merge_loop secret_img cover_img)
                           = None)).
Proof.
  rewrite Merge_unfold.
  destruct (exists_ fs cover), (exists_ fs secret); cbn [negb orb];
    try (split; [discriminate | intros (? & ? & _); discriminate]).
  destruct (decide (GetImageType fs cover = kUnknown)) as [Hc | Hc].
  { rewrite (bool_decide_eq_true_2 _ Hc). cbn [orb].
    split; [discriminate | intros (_ & _ & ? & _); contradiction]. }
  rewrite (bool_decide_eq_false_2 _ Hc). cbn [orb].
  destruct (decide (GetImageType fs secret = kUnknown)) as [Hs | Hs].
  { rewrite (bool_decide_eq_true_2 _ Hs).
    split; [discriminate | intros (_ & _ & _ & ? & _); contradiction]. }
  rewrite (bool_decide_eq_false_2 _ Hs).
  destruct (ReadImage io fs cover _) as [cover_img|];
    [|split; [intros _; repeat split; auto | reflexivity]].
  destruct (ReadImage io fs secret _) as [secret_img|];
    [|split; [intros _; repeat split; eauto | reflexivity]].
  destruct (decide (height secret_img > height cover_img)) as [Hh | Hh].
  { rewrite (bool_decide_eq_true_2 _ Hh). cbn [orb]. split; [discriminate|].
    intros (_ & _ & _ & _ & [[=] | (c & [= <-] & [[=] | (s & [= <-] & ? & _)])]).
    lia. }
  rewrite (bool_decide_eq_false_2 _ Hh). cbn [orb].
  destruct (decide (width secret_img > width cover_img)) as [Hw | Hw].
  { rewrite (bool_decide_eq_true_2 _ Hw). split; [discriminate|].
    intros (_ & _ & _ & _ & [[=] | (c & [= <-] & [[=] | (s & [= <-] & _ & ? & _)])]).
    lia. }
  rewrite (bool_decide_eq_false_2 _ Hw).
  destruct (write_view io png_tag _) as [bytes|] eqn:Hwr.
  - split; [discriminate|].
    intros (_ & _ & _ & _ & [[=] | (c & [= <-] & [[=] | (s & [= <-] & _ & _ & E)])]).
    congruence.
  - split; [|reflexivity]. intros _. repeat split; auto.
    right. exists cover_img. split; [reflexivity|]. right.
    exists secret_img. repeat split; auto; lia.
Qed.

(** X16: every return of [Merge] with a code other than [kSuccess] comes
    before the write: the file system is as it was, also when [outfile]
    names one of the inputs. *)
Theorem Merge_failure_no_write io fs cover secret outfile rc fs' :
  Merge io fs cover secret outfile = Returned rc fs' ->
  rc <> kSuccess -> fs' = fs.
Proof.
  rewrite Merge_unfold. outcome_cases; intros [= <- <-] H;
    first [reflexivity | now contradiction H].
Qed.

Lemma Merge_failure_no_write_witness :
  exists rc fs',
    Merge RawCodec.io RawCodec.disk "secret.png" "cover.png" "cover.png"
    = Returned rc fs'
    /\ rc <> kSuccess /\ fs' = RawCodec.disk.
Proof.
  exists kInvalidDimensions, RawCodec.disk.
  assert (HM : Merge RawCodec.io RawCodec.disk "secret.png" "cover.png" "cover.png"
               = Returned kInvalidDimensions RawCodec.disk)
    by (vm_compute; reflexivity).
  split; [exact HM|]. split; [discriminate|].
  apply (Merge_failure_no_write _ _ _ _ _ _ _ HM). discriminate.
Defined.

(** X17: when [Unmerge] answers [kFileNotFound] its input does not exist and
    the file system is as it was; it answers [kInvalidFileFormat] exactly
    when the input exists and is not classified as JPEG or PNG (a JPEG input
    is accepted); it never answers [kInvalidDimensions]; and it is aborted by
    an exception of the codec exactly when the input exists, is classified,
    and does not decode or the writer chosen by the extension of [outfile]
    fails. *)
Theorem Unmerge_outcomes io fs secret outfile :
  (forall fs', Unmerge io fs secret outfile = Returned kFileNotFound fs' ->
               exists_ fs secret = false /\ fs' = fs)
  /\ (Unmerge io fs secret outfile = Returned kInvalidFileFormat fs
      <-> exists_ fs secret = true /\ GetImageType fs secret = kUnknown)
  /\ (Unmerge io fs secret outfile = Thrown
      <-> exists_ fs secret = true /\ GetImageType fs secret <> kUnknown
          /\ (ReadImage io fs secret (GetImageType fs secret) = None
              \/ exists secret_img,
                   ReadImage io fs secret (GetImageType fs secret) = Some secret_img
                   /\ write_view io
                        (if HasJpegExtension outfile then jpeg_tag else png_tag)
                        (unmerge_loop secret_img secret_img) = None))
  /\ (forall rc fs', Unmerge io fs secret outfile = Returned rc fs' ->
        rc <> kInvalidDimensions).
Proof.
  rewrite Unmerge_unfold.
  assert (Hrc : forall rc0 (fs0 : gmap string file),
             rc0 <> kInvalidDimensions ->
             forall rc fs', Returned rc0 fs0 = Returned rc fs' ->
                            rc <> kInvalidDimensions)
    by (intros rc0 fs0 H rc fs' [= <- <-]; exact H).
  destruct (exists_ fs secret); cbn [negb].
  2: { split; [intros fs' [= <-]; now split|].
       split; [split; [discriminate | intros (? & _); discriminate]|].
       split; [split; [discriminate | intros (? & _); discriminate]|].
       apply Hrc. discriminate. }
  destruct (decide (GetImageType fs secret = kUnknown)) as [Hs | Hs].
  { rewrite (bool_decide_eq_true_2 _ Hs).
    split; [intros fs'; discriminate|]. split; [tauto|].
    split; [split; [discriminate | intros (_ & ? & _); contradiction]|].
    apply Hrc. discriminate. }
  rewrite (bool_decide_eq_false_2 _ Hs).
  destruct (ReadImage io fs secret _) as [secret_img|].
  2: { split; [intros fs'; discriminate|].
       split; [split; [discriminate | intros (_ & ?); contradiction]|].
       split; [split; auto|]. intros rc fs' [=]. }
  destruct (write_view io _ _) as [bytes|] eqn:Hwr.
  - split; [intros fs'; discriminate|].
    split; [split; [discriminate | intros (_ & ?); contradiction]|].
    split; [|apply Hrc; discriminate].
    split; [discriminate|].
    intros (_ & _ & [[=] | (s & [= <-] & E)]). congruence.
  - split; [intros fs'; discriminate|].
    split; [split; [discriminate | intros (_ & ?); contradiction]|].
    split; [|intros rc fs' [=]].
    split; [|reflexivity]. intros _. repeat split; auto. right. eauto.
Qed.

(** X18: every return of [Unmerge] with a code other than [kSuccess] comes
    before the write: the file system is as it was, also when [outfile]
    names the input. *)
Theorem Unmerge_failure_no_write io fs secret outfile rc fs' :
  Unmerge io fs secret outfile = Returned rc fs' ->
  rc <> kSuccess -> fs' = fs.
Proof.
  rewrite Unmerge_unfold. outcome_cases; intros [= <- <-] H;
    first [reflexivity | now contradiction H].
Qed.

Lemma Unmerge_failure_no_write_witness :
  let fs : gmap string file :=
    {[ "notes.txt"%string := File true [Byte.x68; Byte.x69] ]} in
  exists rc fs',
    Unmerge RawCodec.io fs "notes.txt" "notes.txt" = Returned rc fs'
    /\ rc <> kSuccess /\ fs' = fs.
Proof.
  cbv zeta.
  exists kInvalidFileFormat, {[ "notes.txt"%string := File true [Byte.x68; Byte.x69] ]}.
  assert (HU : Unmerge RawCodec.io
                 {[ "notes.txt"%string := File true [Byte.x68; Byte.x69] ]}
                 "notes.txt" "notes.txt"
               = Returned kInvalidFileFormat
                   {[ "notes.txt"%string := File true [Byte.x68; Byte.x69] ]})
    by (vm_compute; reflexivity).
  split; [exact HU|]. split; [discriminate|].
  apply (Unmerge_failure_no_write _ _ _ _ _ _ HU). discriminate.
Defined.

Lemma Unmerge_success_inv io fs secret outfile fs' :
  Unmerge io fs secret outfile = Returned kSuccess fs' ->
  exists secret_img bytes,
    ReadImage io fs secret (GetImageType fs secret) = Some secret_img
    /\ write_view io (if HasJpegExtension outfile then jpeg_tag else png_tag)
         (unmerge_loop secret_img secret_img) = Some bytes
    /\ fs' = <[outfile := File true bytes]> fs.
Proof.
  rewrite Unmerge_unfold. outcome_cases; intros [= <-];
    refine (ex_intro _ _ (ex_intro _ _ (conj eq_refl (conj _ eq_refl))));
    eassumption.
Qed.

(** X19: on success [Unmerge] writes a grid with the dimensions of the decoded
    input in which every pixel is the input pixel unmerged: each channel
    is [(m & 0x0F) << 4]. *)
Theorem Unmerge_success_grid io fs secret outfile fs' :
  decodes_grids io ->
  Unmerge io fs secret outfile = Returned kSuccess fs' ->
  exists secret_img output_img bytes,
    ReadImage io fs secret (GetImageType fs secret) = Some secret_img
    /\ write_view io (if HasJpegExtension outfile then jpeg_tag else png_tag)
         output_img = Some bytes
    /\ fs' = <[outfile := File true bytes]> fs
    /\ width output_img = width secret_img
    /\ height output_img = height secret_img
    /\ forall row col, row < height output_img -> col < width output_img ->
         view_at output_img col row = UnmergePixels (view_at secret_img col row)
         /\ forall i, i < 3 ->
              to_int (chan (view_at output_img col row) i)
              = Z.shiftl (Z.land (to_int (chan (view_at secret_img col row) i)) 0x0F) 4.
Proof.
  intros Hio HU.
  destruct (Unmerge_success_inv _ _ _ _ _ HU) as (secret_img & bytes & Hr & Hw & ->).
  pose proof (ReadImage_wf _ _ _ _ _ Hio Hr) as Hwf.
  destruct (unmerge_loop_spec _ Hwf) as (Hwd & Hh & Hpix).
  exists secret_img, (unmerge_loop secret_img secret_img), bytes.
  repeat split; try assumption.
  - apply Hpix; lia.
  - intros i Hi. rewrite Hpix by lia. rewrite UnmergePixels_channels.
    destruct i as [|[|[|i]]]; [apply unmerge_channel_int .. | lia].
Qed.

Lemma Unmerge_success_grid_witness :
  let fs : gmap string file := {[ "merged.png"%string := RawCodec.merged_file ]} in
  exists output_img : rgb8_image_t,
    width output_img = 4 /\ height output_img = 4
    /\ view_at output_img 0 1 = Pixel Byte.xf0 Byte.xf0 Byte.xf0
    /\ view_at output_img 2 0 = kBlackPixel.
Proof.
  cbv zeta.
  assert (HU : Unmerge RawCodec.io {[ "merged.png"%string := RawCodec.merged_file ]}
                 "merged.png" "hidden.png"
               = Returned kSuccess
                   (<["hidden.png"%string :=
                        File true (RawCodec.recovered_bytes png_tag)]>
                      {[ "merged.png"%string := RawCodec.merged_file ]}))
    by (vm_compute; reflexivity).
  destruct (Unmerge_success_grid _ _ _ _ _ RawCodec_decodes_grids HU)
    as (s & o & bytes & Hs & _ & _ & Hw & Hh & Hpix).
  vm_compute in Hs. injection Hs as <-.
  cbn in Hw, Hh. exists o. rewrite Hw, Hh in Hpix.
  split; [exact Hw|]. split; [exact Hh|].
  destruct (Hpix 1 0 ltac:(lia) ltac:(lia)) as [H01 _].
  destruct (Hpix 0 2 ltac:(lia) ltac:(lia)) as [H20 _].
  split; [rewrite H01; reflexivity | rewrite H20; reflexivity].
Defined.

End Outcomes.

(** ** The extension test at the bounds *)

Section ExtensionBounds.

Local Open Scope string_scope.

Lemma ends_with_app (stem s sv : string) :
  String.length sv <= String.length s ->
  ends_with (stem +:+ s) sv = ends_with s sv.
Proof.
  intros Hlen. unfold ends_with. rewrite string_length_app.
  rewrite !bool_decide_eq_true_2 by lia. cbn [andb].
  replace (String.length stem + String.length s - String.length sv)
    with (String.length stem + (String.length s - String.length sv)) by lia.
  now rewrite substring_app_skip.
Qed.

(** X10: a path of fewer than four characters has no JPEG extension. *)
Theorem HasJpegExtension_short (filename : string) :
  String.length filename < 4 -> HasJpegExtension filename = false.
Proof.
  intros Hlen. unfold HasJpegExtension, kExtensions, ends_with. cbn [existsb].
  rewrite !bool_decide_eq_false_2 by (cbn; lia). reflexivity.
Qed.

Lemma HasJpegExtension_short_witness : HasJpegExtension "jpg" = false.
Proof. apply HasJpegExtension_short. cbn. lia. Defined.

(** X11: only the last five characters of the path decide: what precedes them,
    a directory named [x.jpg/] say, is not looked at. *)
Theorem HasJpegExtension_last_five (stem s : string) :
  5 <= String.length s ->
  HasJpegExtension (stem +:+ s) = HasJpegExtension s.
Proof.
  intros Hlen. unfold HasJpegExtension, kExtensions. cbn [existsb].
  rewrite !ends_with_app by (cbn; lia). reflexivity.
Qed.

Lemma HasJpegExtension_last_five_witness :
  HasJpegExtension ("shots.jpg/" +:+ "a.png") = HasJpegExtension "a.png".
Proof. apply HasJpegExtension_last_five. cbn. lia. Defined.

End ExtensionBounds.

(** ** Merge followed by Unmerge *)

Section RoundTrip.

Implicit Types (io : gil_io) (fs : gmap string file).

(** X20: with a PNG writer and reader that are lossless on the merged grid,
    unmerging the file [Merge] wrote gives a grid of the cover's dimensions
    that holds, inside the secret's bounds, the high nibble of every channel
    of the secret, and black outside. *)
Theorem Merge_Unmerge_roundtrip io fs cover secret merged outfile fs1 fs2 :
  decodes_grids io ->
  (forall cover_img secret_img,
      ReadImage io fs cover (GetImageType fs cover) = Some cover_img ->
      ReadImage io fs secret (GetImageType fs secret) = Some secret_img ->
      png_lossless_on io (merge_loop secret_img cover_img)) ->
  Merge io fs cover secret merged = Returned kSuccess fs1 ->
  Unmerge io fs1 merged outfile = Returned kSuccess fs2 ->
  exists cover_img secret_img recovered bytes,
    ReadImage io fs cover (GetImageType fs cover) = Some cover_img
    /\ ReadImage io fs secret (GetImageType fs secret) = Some secret_img
    /\ write_view io (if HasJpegExtension outfile then jpeg_tag else png_tag)
         recovered = Some bytes
    /\ fs2 = <[outfile := File true bytes]> fs1
    /\ width recovered = width cover_img
    /\ height recovered = height cover_img
    /\ forall row col, row < height cover_img -> col < width cover_img ->
         (row < height secret_img /\ col < width secret_img ->
          forall i, i < 3 ->
            to_int (chan (view_at recovered col row) i)
            = Z.land (to_int (chan (view_at secret_img col row) i)) 0xF0)
         /\ (row >= height secret_img \/ col >= width secret_img ->
             view_at recovered col row = kBlackPixel).
Proof.
  intros Hio Hlossless HM HU.
  destruct (Merge_success_inv _ _ _ _ _ _ HM)
    as (cover_img & secret_img & bytes1 & Hrc & Hrs & Hh & Hw & Hwr & ->).
  destruct (Hlossless _ _ Hrc Hrs _ Hwr) as [Hsig Hback].
  assert (Hopen : ifstream_open (<[merged := File true bytes1]> fs) merged
                  = Some bytes1)
    by (unfold ifstream_open; now rewrite lookup_insert_eq).
  pose proof (GetImageType_png_signature _ _ _ Hopen Hsig) as Hpng.
  destruct (Unmerge_success_inv _ _ _ _ _ HU) as (m & bytes2 & Hrm & Hwr2 & ->).
  rewrite Hpng in Hrm. unfold ReadImage in Hrm.
  rewrite (bool_decide_eq_false_2 (kPng = kJpeg)), Hopen in Hrm by discriminate.
  cbn in Hrm. rewrite Hback in Hrm. injection Hrm as <-.
  pose proof (ReadImage_wf _ _ _ _ _ Hio Hrc) as Hwf.
  destruct (sweep_spec (merged_pixel secret_img) cover_img Hwf)
    as (Hmw & Hmh & Hmwf & Hmpix).
  rewrite <- merge_loop_sweep in Hmw, Hmh, Hmwf, Hmpix.
  destruct (unmerge_loop_spec _ Hmwf) as (Huw & Huh & Hupix).
  exists cover_img, secret_img,
    (unmerge_loop (merge_loop secret_img cover_img) (merge_loop secret_img cover_img)),
    bytes2.
  split; [exact Hrc|]. split; [exact Hrs|]. split; [exact Hwr2|].
  split; [reflexivity|]. split; [congruence|]. split; [congruence|].
  intros row col Hrow Hcol. split.
  - intros [Hr Hc] i Hi. now apply grid_roundtrip.
  - intros Hout. rewrite Hupix, Hmpix by lia. unfold merged_pixel.
    assert (E : bool_decide (row >= height secret_img)
                || bool_decide (col >= width secret_img) = true).
    { apply orb_true_iff. rewrite !bool_decide_eq_true. exact Hout. }
    rewrite E, UnmergePixels_channels, MergePixels_channels.
    cbn [red green blue]. unfold kBlackPixel at 4.
    f_equal; apply to_int_inj; rewrite unmerge_merge_channel; reflexivity.
Qed.

Lemma Merge_Unmerge_roundtrip_witness :
  exists recovered : rgb8_image_t,
    width recovered = 4 /\ height recovered = 4
    /\ (forall i, i < 3 -> to_int (chan (view_at recovered 1 0) i) = 0xF0%Z)
    /\ view_at recovered 1 2 = kBlackPixel.
Proof.
  assert (HM : Merge RawCodec.io RawCodec.disk "cover.png" "secret.png" "m.png"
               = Returned kSuccess
                   (<["m.png"%string := RawCodec.merged_file]> RawCodec.disk))
    by (vm_compute; reflexivity).
  assert (HU : Unmerge RawCodec.io
                 (<["m.png"%string := RawCodec.merged_file]> RawCodec.disk)
                 "m.png" "hidden.png"
               = Returned kSuccess
                   (<["hidden.png"%string :=
                        File true (RawCodec.recovered_bytes png_tag)]>
                      (<["m.png"%string := RawCodec.merged_file]> RawCodec.disk)))
    by (vm_compute; reflexivity).
  assert (HL : forall cover_img secret_img,
             ReadImage RawCodec.io RawCodec.disk "cover.png"
               (GetImageType RawCodec.disk "cover.png") = Some cover_img ->
             ReadImage RawCodec.io RawCodec.disk "secret.png"
               (GetImageType RawCodec.disk "secret.png") = Some secret_img ->
             png_lossless_on RawCodec.io (merge_loop secret_img cover_img)).
  { intros c s Hc Hs. vm_compute in Hc, Hs.
    injection Hc as <-. injection Hs as <-.
    intros bytes Hb. vm_compute in Hb. injection Hb as <-.
    split; vm_compute; reflexivity. }
  destruct (Merge_Unmerge_roundtrip _ _ _ _ _ _ _ _ RawCodec_decodes_grids HL HM HU)
    as (c & s & r & bytes & Hc & Hs & _ & _ & Hw & Hh & Hpix).
  vm_compute in Hc. injection Hc as <-.
  vm_compute in Hs. injection Hs as <-.
  cbn [width height] in Hw, Hh, Hpix. exists r.
  split; [exact Hw|]. split; [exact Hh|].
  destruct (Hpix 0 1 ltac:(lia) ltac:(lia)) as [H10 _].
  destruct (Hpix 2 1 ltac:(lia) ltac:(lia)) as [_ H12].
  split.
  - intros i Hi. rewrite (H10 ltac:(lia) i Hi).
    destruct i as [|[|[|i]]]; [reflexivity .. | lia].
  - apply H12. lia.
Defined.

End RoundTrip.

(** ** The command line *)

Section CommandLine.

Import cli.

Local Open Scope string_scope.

Implicit Types (io : gil_io) (fs : gmap string file) (argv : list string).

Lemma Merge_failure_fs io fs cover secret outfile rc fs' :
  Merge io fs cover secret outfile = Returned rc fs' -> rc <> kSuccess -> fs' = fs.
Proof.
  rewrite Merge_unfold.
  repeat match goal with
         | |- context [if ?b then _ else _] => destruct b
         | |- context [match ?o with Some _ => _ | None => _ end] => destruct o
         end; intros [= <- <-] H; try reflexivity. now contradiction H.
Qed.

Lemma Unmerge_failure_fs io fs secret outfile rc fs' :
  Unmerge io fs secret outfile = Returned rc fs' -> rc <> kSuccess -> fs' = fs.
Proof.
  rewrite Unmerge_unfold.
  repeat match goal with
         | |- context [if ?b then _ else _] => destruct b
         | |- context [match ?o with Some _ => _ | None => _ end] => destruct o
         end; intros [= <- <-] H; try reflexivity; now contradiction H.
Qed.

Lemma report_cases rc con fs :
  (rc = kSuccess /\ report rc con fs = Exited 0 con fs)
  \/ (rc <> kSuccess /\ exists msg, report rc con fs = PrintErrAndExit msg con fs).
Proof. destruct rc; cbn; [left | right ..]; split; eauto; discriminate. Qed.

(** X21: [help] prints the usage text on the standard output and exits with
    status 0, whatever follows it on the command line and whatever the files
    are; nothing is read or written. *)
Theorem main_help io fs (prog : string) (rest : list string) :
  main io fs (prog :: "help" :: rest) = Exited 0 (Console usage "") fs.
Proof. reflexivity. Qed.

(** X22: the checks of the command line come before any access to a file: a
    missing command, an unknown command and a wrong number of arguments each
    end the process with [EXIT_FAILURE] and their own message, for every
    codec and file system. *)
Theorem main_argument_checks io fs argv :
  (length argv < 2 ->
   main io fs argv = PrintErrAndExit "missing command" (Console "" "") fs)
  /\ (2 <= length argv ->
      nth 1 argv "" <> "merge" -> nth 1 argv "" <> "unmerge" ->
      nth 1 argv "" <> "help" ->
      main io fs argv = PrintErrAndExit "unknown CMD value" (Console "" "") fs)
  /\ (nth 1 argv "" = "merge" -> length argv <> 5 ->
      main io fs argv
      = PrintErrAndExit "invalid arg count for merge command" (Console "" "") fs)
  /\ (nth 1 argv "" = "unmerge" -> length argv <> 4 ->
      main io fs argv
      = PrintErrAndExit "invalid arg count for unmerge command" (Console "" "") fs).
Proof.
  unfold main, kMergeCmd, kUnmergeCmd, kHelpCmd, kMergeCmdArgCount,
    kUnmergeCmdArgCount.
  repeat split.
  - intros H. now rewrite bool_decide_eq_true_2.
  - intros Hlen Hm Hu Hh. rewrite bool_decide_eq_false_2 by lia. cbn zeta.
    rewrite !bool_decide_eq_true_2 by congruence. reflexivity.
  - intros Hm Hlen.
    assert (2 <= length argv).
    { destruct argv as [|a [|b argv]]; cbn in *; try discriminate; lia. }
    rewrite bool_decide_eq_false_2 by lia. cbn zeta. rewrite Hm.
    rewrite (bool_decide_eq_false_2 ("merge" <> "merge")) by congruence.
    cbn [andb]. rewrite (bool_decide_eq_true_2 ("merge" = "merge")) by reflexivity.
    rewrite (bool_decide_eq_true_2 (5 <> length argv)) by congruence. reflexivity.
  - intros Hu Hlen.
    assert (2 <= length argv).
    { destruct argv as [|a [|b argv]]; cbn in *; try discriminate; lia. }
    rewrite bool_decide_eq_false_2 by lia. cbn zeta. rewrite Hu.
    rewrite (bool_decide_eq_false_2 ("unmerge" <> "unmerge")) by congruence.
    rewrite andb_false_r. cbn [andb].
    rewrite (bool_decide_eq_false_2 ("merge" = "unmerge")) by discriminate.
    cbn [andb]. rewrite (bool_decide_eq_true_2 ("unmerge" = "unmerge")) by reflexivity.
    rewrite (bool_decide_eq_true_2 (4 <> length argv)) by congruence. reflexivity.
Qed.

Lemma main_argument_checks_witness :
  main RawCodec.io RawCodec.disk ["steganography"]
  = PrintErrAndExit "missing command" (Console "" "") RawCodec.disk
  /\ main RawCodec.io RawCodec.disk ["steganography"; "hide"; "a"; "b"]
     = PrintErrAndExit "unknown CMD value" (Console "" "") RawCodec.disk
  /\ main RawCodec.io RawCodec.disk ["steganography"; "merge"; "cover.png"; "secret.png"]
     = PrintErrAndExit "invalid arg count for merge command" (Console "" "")
         RawCodec.disk
  /\ main RawCodec.io RawCodec.disk ["steganography"; "unmerge"; "cover.png"]
     = PrintErrAndExit "invalid arg count for unmerge command" (Console "" "")
         RawCodec.disk.
Proof.
  split; [apply main_argument_checks; cbn; lia|].
  split; [apply main_argument_checks; cbn; (lia || discriminate)|].
  split; apply main_argument_checks; cbn; (reflexivity || lia).
Defined.

Lemma dispatch_exit_0 (o : outcome) con fs' :
  match o with
  | Returned rc fs0 => report rc (Console "" "") fs0
  | Thrown => Terminated
  end = Exited 0 con fs'
  <-> o = Returned kSuccess fs' /\ con = Console "" "".
Proof.
  destruct o as [[] fs0|]; cbn; split;
    first [ intros [= <- <-]; now split
          | intros [[= <-] ->]; reflexivity
          | discriminate
          | intros [[=] _] ].
Qed.

Lemma dispatch_terminated (o : outcome) :
  match o with
  | Returned rc fs0 => report rc (Console "" "") fs0
  | Thrown => Terminated
  end = Terminated
  <-> o = Thrown.
Proof. destruct o as [[] fs0|]; cbn; split; (discriminate || reflexivity). Qed.

(** X23: with a well-formed merge or unmerge command line, [main] exits with
    status 0 and nothing printed exactly when the call returns [kSuccess],
    leaving the file system the call produced; and when the call is aborted
    by an exception, so is [main]: nothing catches it. *)
Theorem main_runs_command io fs (prog cover secret outfile : string) con fs' :
  (main io fs [prog; "merge"; cover; secret; outfile] = Exited 0 con fs'
   <-> Merge io fs cover secret outfile = Returned kSuccess fs'
       /\ con = Console "" "")
  /\ (Merge io fs cover secret outfile = Thrown ->
      main io fs [prog; "merge"; cover; secret; outfile] = Terminated)
  /\ (main io fs [prog; "unmerge"; secret; outfile] = Exited 0 con fs'
      <-> Unmerge io fs secret outfile = Returned kSuccess fs'
          /\ con = Console "" "")
  /\ (Unmerge io fs secret outfile = Thrown ->
      main io fs [prog; "unmerge"; secret; outfile] = Terminated).
Proof.
  change (main io fs [prog; "merge"; cover; secret; outfile])
    with (match Merge io fs cover secret outfile with
          | Returned rc fs0 => report rc (Console "" "") fs0
          | Thrown => Terminated
          end).
  change (main io fs [prog; "unmerge"; secret; outfile])
    with (match Unmerge io fs secret outfile with
          | Returned rc fs0 => report rc (Console "" "") fs0
          | Thrown => Terminated
          end).
  split; [apply dispatch_exit_0|]. split; [apply dispatch_terminated|].
  split; [apply dispatch_exit_0 | apply dispatch_terminated].
Qed.

(** X24: every exit of [main] is with status 0 or [EXIT_FAILURE].  With status 0
    nothing is on the standard error.  With [EXIT_FAILURE] the file system is
    as it was, nothing is on the standard output, and the standard error
    holds the [error:] line and the hint. *)
Theorem main_exit_status io fs argv code con fs' :
  main io fs argv = Exited code con fs' ->
  (code = 0%Z /\ cerr con = "")
  \/ (code = EXIT_FAILURE /\ fs' = fs /\ cout con = ""
      /\ exists msg,
           cerr con = "error: " +:+ msg +:+ endl
                      +:+ "try 'steganography help' for more information" +:+ endl).
Proof.
  unfold main.
  assert (Herr : forall msg fs0, fs0 = fs ->
             PrintErrAndExit msg (Console "" "") fs0 = Exited code con fs' ->
             (code = 0%Z /\ cerr con = "")
             \/ (code = EXIT_FAILURE /\ fs' = fs /\ cout con = ""
                 /\ exists msg,
                      cerr con = "error: " +:+ msg +:+ endl
                                 +:+ "try 'steganography help' for more information"
                                 +:+ endl)).
  { intros msg fs0 -> [= <- <- <-]. right. repeat split; eauto. }
  assert (Hrep : forall rc fs0, (rc <> kSuccess -> fs0 = fs) ->
             report rc (Console "" "") fs0 = Exited code con fs' ->
             (code = 0%Z /\ cerr con = "")
             \/ (code = EXIT_FAILURE /\ fs' = fs /\ cout con = ""
                 /\ exists msg,
                      cerr con = "error: " +:+ msg +:+ endl
                                 +:+ "try 'steganography help' for more information"
                                 +:+ endl)).
  { intros rc fs0 Hfs.
    destruct (report_cases rc (Console "" "") fs0) as [[-> ->] | [Hne [msg ->]]].
    - intros [= <- <- <-]. left. split; reflexivity.
    - apply Herr. now apply Hfs. }
  repeat match goal with
         | |- context [if ?b then _ else _] => destruct b
         end; try (apply Herr; reflexivity).
  - destruct (Merge io fs _ _ _) as [rc fs0|] eqn:HM; [|discriminate].
    apply Hrep. intros Hne. exact (Merge_failure_fs _ _ _ _ _ _ _ HM Hne).
  - destruct (Unmerge io fs _ _) as [rc fs0|] eqn:HU; [|discriminate].
    apply Hrep. intros Hne. exact (Unmerge_failure_fs _ _ _ _ _ _ HU Hne).
  - intros [= <- <- <-]. left. split; reflexivity.
  - intros [= <- <- <-]. left. split; reflexivity.
Qed.

Lemma main_exit_status_witness :
  (1%Z = 0%Z
   /\ cerr (Console ""
              ("error: " +:+ "secret image does not fit inside cover image" +:+ endl
               +:+ "try 'steganography help' for more information" +:+ endl)) = "")
  \/ (1%Z = EXIT_FAILURE /\ RawCodec.disk = RawCodec.disk
      /\ cout (Console ""
                 ("error: " +:+ "secret image does not fit inside cover image"
                  +:+ endl
                  +:+ "try 'steganography help' for more information" +:+ endl)) = ""
      /\ exists msg,
           cerr (Console ""
                   ("error: " +:+ "secret image does not fit inside cover image"
                    +:+ endl
                    +:+ "try 'steganography help' for more information" +:+ endl))
           = "error: " +:+ msg +:+ endl
             +:+ "try 'steganography help' for more information" +:+ endl).
Proof.
  apply (main_exit_status RawCodec.io RawCodec.disk
           ["steganography"; "merge"; "secret.png"; "cover.png"; "out.png"]).
  vm_compute. reflexivity.
Defined.

End CommandLine.
